(** * geodata-benchmark: the benchmark execution engine

    A shallow embedding of the TypeScript benchmark package:

    - [Metrics]      utils/metrics.ts       (percentile, min, max, mean, stddev, computeStats)
    - [QueryRunner]  utils/query-runner.ts  (runBenchmarkCase)
    - [Workload]     suites/concurrent.ts, suites/mixed-workload.ts
    - [DockerStats]  utils/docker-stats.ts  (createDockerStatsCollector)
    - [ResultsDb]    utils/results-db.ts    (insertRun, finishRun, getStatsForRun)

    JavaScript numbers that hold latencies are modelled as exact rationals
    ([Q]); counters and indices as [nat] or [Z].  The rounding of IEEE
    doubles is outside the model: what is proved of a computed number is
    proved of its exact value. *)

From Stdlib Require Import QArith Qround Qpower ZArith List Lia Lqa Bool String.
From Stdlib Require Import Sorting.Mergesort Sorting.Permutation Sorting.Sorted Orders.
Import ListNotations.

(* ================================================================== *)
(** ** utils/metrics.ts *)
(* ================================================================== *)

Module Metrics.

Open Scope Q_scope.

(** The comparator handed to [Array.prototype.sort]: [(a, b) => a - b]. *)
Definition compareFn (a b : Q) : Q := a - b.

(** [sort] keeps [a] before [b] when the comparator is not positive. *)
Module AscendingOrder <: TotalLeBool.
Definition t := Q.
Definition leb (a b : Q) : bool := Qle_bool (compareFn a b) 0.
Lemma leb_total : forall a b, leb a b = true \/ leb b a = true.
Proof.
  intros a b. unfold leb, compareFn. rewrite !Qle_bool_iff.
  destruct (Qlt_le_dec b a) as [H|H]; [right|left]; lra.
Qed.
End AscendingOrder.

(** [[...values].sort((a, b) => a - b)]: a stable sort of a fresh copy. *)
Module NumberSort := Sort AscendingOrder.

Definition sort_copy (values : list Q) : list Q := NumberSort.sort values.

(** [arr[i]] for an integral [i]: [None] is JavaScript's [undefined]. *)
Definition at_index (arr : list Q) (i : Z) : option Q :=
  if (i <? 0)%Z then None else nth_error arr (Z.to_nat i).

(** [values.length] as a number. *)
Definition length_num (values : list Q) : Q :=
  inject_Z (Z.of_nat (List.length values)).

(** A numeric result that may fail to be a number: [None] stands for
    [undefined] and for the [NaN] that arithmetic on [undefined] yields. *)
Definition number := option Q.

Definition interpolate (index : Q) (lower : Z) (lo hi : option Q) : number :=
  match lo, hi with
  | Some l, Some h => Some (l + (index - inject_Z lower) * (h - l))
  | _, _ => None
  end.

Definition percentile (values : list Q) (p : Q) : number :=
  match values with
  | [] => Some 0
  | [v] => Some v
  | _ =>
      let sorted := sort_copy values in
      let index := (p / 100) * (length_num sorted - 1) in
      let lower := Qfloor index in
      let upper := Qceiling index in
      if (lower =? upper)%Z then at_index sorted lower
      else interpolate index lower (at_index sorted lower) (at_index sorted upper)
  end.

Definition p50 (values : list Q) : number := percentile values 50.
Definition p95 (values : list Q) : number := percentile values 95.
Definition p99 (values : list Q) : number := percentile values 99.

Definition mean (values : list Q) : Q :=
  match values with
  | [] => 0
  | _ => fold_left (fun sum v => sum + v) values 0 / length_num values
  end.

(** [Math.min(a, b)] and [Math.max(a, b)] on finite numbers. *)
Definition math_min (a b : Q) : Q := if Qle_bool a b then a else b.
Definition math_max (a b : Q) : Q := if Qle_bool a b then b else a.

(** [Math.min(...values)] behind the empty-array guard. *)
Definition min (values : list Q) : Q :=
  match values with
  | [] => 0
  | v :: rest => fold_left math_min rest v
  end.

Definition max (values : list Q) : Q :=
  match values with
  | [] => 0
  | v :: rest => fold_left math_max rest v
  end.

(** [Math.sqrt] leaves the rationals, so its result is kept symbolic:
    [Math_sqrt q] is the square root of [q]. *)
Inductive root :=
| Rational (q : Q)
| Math_sqrt (q : Q).

Definition stddev (values : list Q) : root :=
  if (List.length values <? 2)%nat then Rational 0
  else
    let avg := mean values in
    let squaredDiffs := map (fun v => (v - avg) ^ 2) values in
    Math_sqrt (fold_left (fun sum v => sum + v) squaredDiffs 0
               / (length_num values - 1)).

Record Stats := mkStats {
  count : nat;
  stat_min : Q;
  stat_max : Q;
  stat_mean : Q;
  stat_stddev : root;
  stat_p50 : number;
  stat_p95 : number;
  stat_p99 : number
}.

Definition computeStats (values : list Q) : Stats :=
  {| count := List.length values;
     stat_min := min values;
     stat_max := max values;
     stat_mean := mean values;
     stat_stddev := stddev values;
     stat_p50 := p50 values;
     stat_p95 := p95 values;
     stat_p99 := p99 values |}.

End Metrics.

(** *** The same functions, logging their calls of [sort]

    Each function below is its namesake of [Metrics] with one addition: a
    call of [Array.prototype.sort] is written to a log, together with the
    array it sorts. *)

Module SortLog.

Import Metrics.
Open Scope Q_scope.

Definition Logged (A : Type) : Type := (A * list (list Q))%type.

Definition ret {A} (a : A) : Logged A := (a, []).

Definition bind {A B} (m : Logged A) (f : A -> Logged B) : Logged B :=
  let '(a, log1) := m in
  let '(b, log2) := f a in
  (b, log1 ++ log2).

Notation "x <- m ;; k" := (bind m (fun x => k))
  (at level 61, m at next level, right associativity).

Definition value {A} (m : Logged A) : A := fst m.
Definition sort_calls {A} (m : Logged A) : list (list Q) := snd m.

Definition sort_copy (values : list Q) : Logged (list Q) :=
  (Metrics.sort_copy values, [values]).

Definition percentile (values : list Q) (p : Q) : Logged number :=
  match values with
  | [] => ret (Some 0)
  | [v] => ret (Some v)
  | _ =>
      sorted <- sort_copy values ;;
      let index := (p / 100) * (length_num sorted - 1) in
      let lower := Qfloor index in
      let upper := Qceiling index in
      ret (if (lower =? upper)%Z then at_index sorted lower
           else interpolate index lower (at_index sorted lower)
                  (at_index sorted upper))
  end.

Definition p50 (values : list Q) : Logged number := percentile values 50.
Definition p95 (values : list Q) : Logged number := percentile values 95.
Definition p99 (values : list Q) : Logged number := percentile values 99.

Definition computeStats (values : list Q) : Logged Stats :=
  v50 <- p50 values ;;
  v95 <- p95 values ;;
  v99 <- p99 values ;;
  ret {| count := List.length values;
         stat_min := min values;
         stat_max := max values;
         stat_mean := mean values;
         stat_stddev := stddev values;
         stat_p50 := v50;
         stat_p95 := v95;
         stat_p99 := v99 |}.

End SortLog.

(* ================================================================== *)
(** ** types.ts and utils/query-runner.ts *)
(* ================================================================== *)

Module QueryRunner.

Open Scope string_scope.

Inductive DatabaseTarget := postgis | mssql.

(** A thrown value, as a [catch (err: any)] clause can observe it.
    [message] is what reading [err?.message] gives: a string, nothing
    ([None]: the message, or [err] itself, is [undefined] or [null]), or the
    read throws in its turn (an accessor property that throws).  [as_string]
    is what [String(err)] gives: a string, or the conversion throws (an
    object without [toString], such as [Object.create(null)]).  A message
    that is present is a string, as the type of [BenchmarkResult.error]
    declares. *)
#[warnings="-register-all"]
Inductive thrown := mkThrown {
  message : option string + thrown;
  as_string : string + thrown
}.

(** The object a case resolves with, as the runner reads it.  Reading
    [result.rowsReturned] or [result.queryPlan] gives the property's value
    or throws (an accessor property that throws; a result that is
    [undefined]). *)
Record BenchmarkCaseResult := mkCaseResult {
  cr_rowsReturned : Z + thrown;
  cr_queryPlan : option string + thrown
}.

Record BenchmarkContext := mkContext {
  ctx_database : DatabaseTarget;
  ctx_scale : Z
}.

(** [benchCase.fn(ctx)] is an opaque asynchronous operation.  Its behaviour
    is given per invocation: the [k]-th call made through the runner either
    resolves with a result or rejects with a thrown value. *)
Record BenchmarkCase := mkCase {
  name : string;
  fn : BenchmarkContext -> nat -> BenchmarkCaseResult + thrown
}.

Record BenchmarkResult := mkResult {
  runId : string;
  suite : string;
  benchmark : string;
  database : DatabaseTarget;
  scale : Z;
  iteration : nat;
  queryTimeMs : Q;
  rowsReturned : Z;
  queryPlan : option string;
  error : option string;
  timestamp : string
}.

Record QueryRunnerOptions := mkOptions {
  opt_runId : string;
  opt_suite : string;
  opt_database : DatabaseTarget;
  opt_scale : Z;
  iterations : nat;
  warmupIterations : nat
}.

(** The part of the outside world the runner touches: how many times the
    operation, [performance.now()] and [new Date()] have been used. *)
Record world := mkWorld {
  fn_calls : nat;
  perf_reads : nat;
  date_reads : nat
}.

(** Computations that read and advance the world and may throw. *)
Definition M (A : Type) : Type := world -> (A + thrown) * world.

Definition ret {A} (a : A) : M A := fun w => (inl a, w).

Definition bind {A B} (m : M A) (f : A -> M B) : M B :=
  fun w => match m w with
           | (inl a, w') => f a w'
           | (inr e, w') => (inr e, w')
           end.

Definition try_catch {A} (body : M A) (handler : thrown -> M A) : M A :=
  fun w => match body w with
           | (inl a, w') => (inl a, w')
           | (inr e, w') => handler e w'
           end.

Notation "x <- m ;; k" := (bind m (fun x => k))
  (at level 61, m at next level, right associativity).
Notation "m ;;; k" := (bind m (fun _ => k))
  (at level 61, right associativity).

(** [err?.message ?? String(err)]: the message when there is one, else the
    string form; either read may throw, and then the expression throws. *)
Definition error_text (err : thrown) : string + thrown :=
  match message err with
  | inr raised => inr raised
  | inl (Some m) => inl m
  | inl None => as_string err
  end.

(** The [try] block of a timed iteration, by the way the awaited call
    settled.  [rowsReturned] and [queryPlan] start as [0] and [undefined];
    the block assigns the first, then the second, and ends at the first
    read that throws.  The result holds the two locals as the block left
    them and the value the block threw, if it threw. *)
Definition try_block (settled : BenchmarkCaseResult + thrown)
  : Z * option string * option thrown :=
  match settled with
  | inr err => (0%Z, None, Some err)
  | inl result =>
      match cr_rowsReturned result with
      | inr err => (0%Z, None, Some err)
      | inl rows =>
          match cr_queryPlan result with
          | inr err => (rows, None, Some err)
          | inl plan => (rows, plan, None)
          end
      end
  end.

(** The locals [rowsReturned], [queryPlan], [error] after the try/catch.
    The [catch] clause only sets [error]; it assigns nothing to the other
    two, and it throws when [error_text] does. *)
Definition locals_after (settled : BenchmarkCaseResult + thrown)
  : (Z * option string * option string) + thrown :=
  let '(rows, plan, raised) := try_block settled in
  match raised with
  | None => inl (rows, plan, None)
  | Some err =>
      match error_text err with
      | inl text => inl (rows, plan, Some text)
      | inr e => inr e
      end
  end.

(** What the [catch] clause of a timed iteration throws, if it throws: the
    value raised while the text of what the [try] block threw was taken. *)
Definition escapes (settled : BenchmarkCaseResult + thrown) : option thrown :=
  match try_block settled with
  | (_, _, Some err) =>
      match error_text err with
      | inl _ => None
      | inr e => Some e
      end
  | (_, _, None) => None
  end.

Section Runner.

(** Readings of the monotonic clock and of the wall clock, by read number. *)
Variable performance_now : nat -> Q.
Variable date_iso : nat -> string.

Variable benchCase : BenchmarkCase.
Variable ctx : BenchmarkContext.
Variable opts : QueryRunnerOptions.

Definition await_fn : M BenchmarkCaseResult :=
  fun w => (fn benchCase ctx (fn_calls w),
            mkWorld (S (fn_calls w)) (perf_reads w) (date_reads w)).

Definition now : M Q :=
  fun w => (inl (performance_now (perf_reads w)),
            mkWorld (fn_calls w) (S (perf_reads w)) (date_reads w)).

Definition new_date_iso : M string :=
  fun w => (inl (date_iso (date_reads w)),
            mkWorld (fn_calls w) (perf_reads w) (S (date_reads w))).

(** [for (let i = 0; i < opts.warmupIterations; i++)], counted down.  The
    [catch] of the warmup has no binding: it never looks at what was
    thrown. *)
Fixpoint warmup_loop (remaining : nat) : M unit :=
  match remaining with
  | O => ret tt
  | S k =>
      try_catch (await_fn ;;; ret tt) (fun _ => ret tt) ;;;
      warmup_loop k
  end.

(** The try/catch of a timed iteration: the call is awaited, and the
    locals are what the two blocks make of the way it settled. *)
Definition timed_attempt : M (Z * option string * option string) :=
  fun w => let '(settled, w') := await_fn w in (locals_after settled, w').

(** [for (let i = 0; i < opts.iterations; i++)] with [results.push]. *)
Fixpoint timed_loop (remaining i : nat) (results : list BenchmarkResult)
  : M (list BenchmarkResult) :=
  match remaining with
  | O => ret results
  | S k =>
      start <- now ;;
      locals <- timed_attempt ;;
      stop <- now ;;
      stamp <- new_date_iso ;;
      let '(rows, plan, err) := locals in
      timed_loop k (S i)
        (results ++
         [ {| runId := opt_runId opts;
              suite := opt_suite opts;
              benchmark := name benchCase;
              database := opt_database opts;
              scale := opt_scale opts;
              iteration := i + 1;
              queryTimeMs := (stop - start)%Q;
              rowsReturned := rows;
              queryPlan := plan;
              error := err;
              timestamp := stamp |} ])
  end.

Definition runBenchmarkCase : M (list BenchmarkResult) :=
  warmup_loop (warmupIterations opts) ;;;
  timed_loop (iterations opts) 0 [].

End Runner.

(** *** The timed loop, iteration by iteration *)

Section TimedIterations.

Variable performance_now : nat -> Q.
Variable date_iso : nat -> string.
Variable benchCase : BenchmarkCase.
Variable ctx : BenchmarkContext.
Variable opts : QueryRunnerOptions.

(** The record pushed by the timed iteration that starts in world [w] with
    loop counter [i] and whose try/catch leaves [locals]. *)
Definition pushed_record (i : nat) (w : world)
    (locals : Z * option string * option string) : BenchmarkResult :=
  let '(rows, plan, err) := locals in
  {| runId := opt_runId opts;
     suite := opt_suite opts;
     benchmark := name benchCase;
     database := opt_database opts;
     scale := opt_scale opts;
     iteration := i + 1;
     queryTimeMs := (performance_now (S (perf_reads w))
                     - performance_now (perf_reads w))%Q;
     rowsReturned := rows;
     queryPlan := plan;
     error := err;
     timestamp := date_iso (date_reads w) |}.

Definition after_iteration (w : world) : world :=
  mkWorld (S (fn_calls w)) (S (S (perf_reads w))) (S (date_reads w)).

Fixpoint after_iterations (k : nat) (w : world) : world :=
  match k with
  | O => w
  | S k' => after_iterations k' (after_iteration w)
  end.

(** The world in which the timed iteration that throws out of its [catch]
    clause leaves the runner: the call and the first clock read are made. *)
Definition after_abort (w : world) : world :=
  mkWorld (S (fn_calls w)) (S (perf_reads w)) (date_reads w).

End TimedIterations.

End QueryRunner.

(* ================================================================== *)
(** ** suites/concurrent.ts and suites/mixed-workload.ts *)
(* ================================================================== *)

Module Workload.

Import QueryRunner.

(** How one database query behaves once it is issued: it resolves with a
    row count ([res.rowCount ?? 0], [res.recordset.length],
    [res.rowsAffected[0] ?? 0]) or it rejects. *)
Inductive outcome :=
| Rows (n : Z)
| Fails (err : thrown).

(** The body of a task, [async () => { ...; const res = await query;
    totalRows += count }]: a rejected query leaves the accumulator alone
    and rejects the task's promise. *)
Definition task_effect (o : outcome) (totalRows : Z) : Z :=
  match o with
  | Rows n => (totalRows + n)%Z
  | Fails _ => totalRows
  end.

(** State of one [await Promise.all(tasks.map(limit))]: what p-limit still
    holds in its queue, the tasks it has started, the closure variable
    [totalRows], and the reason with which [Promise.all] rejected, if it
    did.  [Promise.all] keeps the first rejection and cancels nothing. *)
Record dispatch := mkDispatch {
  queue : list outcome;
  active : list outcome;
  totalRows : Z;
  rejection : option thrown
}.

(** p-limit starts queued tasks, in queue order, while fewer than
    [concurrency] are running. *)
Fixpoint start_queued (slots : nat) (queue active : list outcome)
  : list outcome * list outcome :=
  match slots, queue with
  | S k, t :: rest => start_queued k rest (active ++ [t])
  | _, _ => (queue, active)
  end.

(** Removes the [k]-th running task. *)
Fixpoint take_at {A} (k : nat) (l : list A) : option (A * list A) :=
  match l, k with
  | [], _ => None
  | x :: rest, O => Some (x, rest)
  | x :: rest, S k' =>
      match take_at k' rest with
      | Some (y, rest') => Some (y, x :: rest')
      | None => None
      end
  end.

Definition first_rejection (seen : option thrown) (o : outcome) : option thrown :=
  match seen, o with
  | Some e, _ => Some e
  | None, Fails e => Some e
  | None, Rows _ => None
  end.

(** One turn of the event loop: free slots are filled, then the query of
    one running task settles.  Which one is the scheduler's choice: the
    head of [sched], taken modulo the number of running tasks. *)
Definition turn (concurrency : nat) (choice : nat) (st : dispatch) : dispatch :=
  let '(q, a) := start_queued (concurrency - List.length (active st)) (queue st) (active st) in
  match take_at (choice mod List.length a) a with
  | Some (o, a') =>
      mkDispatch q a' (task_effect o (totalRows st)) (first_rejection (rejection st) o)
  | None => mkDispatch q a (totalRows st) (rejection st)
  end.

Fixpoint run_turns (fuel : nat) (concurrency : nat) (sched : list nat) (st : dispatch)
  : dispatch :=
  match fuel with
  | O => st
  | S fuel' =>
      run_turns fuel' concurrency (tl sched) (turn concurrency (hd O sched) st)
  end.

(** Every task settles exactly once, so [length tasks] turns drain them. *)
Definition settle_all (concurrency : nat) (sched : list nat) (tasks : list outcome)
  : dispatch :=
  run_turns (List.length tasks) concurrency sched (mkDispatch tasks [] 0 None).

(** [pLimit(0)] throws before anything is dispatched. *)
Definition invalid_concurrency : thrown :=
  mkThrown (inl (Some "Expected `concurrency` to be a number from 1 and up"))
           (inl "TypeError: Expected `concurrency` to be a number from 1 and up").

(** [const limit = pLimit(concurrency); let totalRows = 0;
     await Promise.all(tasks); return totalRows;]
    The awaited [Promise.all] rejects as soon as one task rejects, and the
    [async] function then rejects with the same reason. *)
Definition limited_sum (concurrency : nat) (sched : list nat) (tasks : list outcome)
  : Z + thrown :=
  if (concurrency =? 0)%nat then inr invalid_concurrency
  else
    let final := settle_all concurrency sched tasks in
    match rejection final with
    | Some e => inr e
    | None => inl (totalRows final)
    end.

Inductive operation := write | read.

(** The two connection pools, each given by what the [i]-th dispatched
    task's query does. *)
Record BenchmarkContext := mkContext {
  database : DatabaseTarget;
  pgPool : nat -> operation -> outcome;
  mssqlPool : nat -> operation -> outcome
}.

Definition indices (n : nat) : list nat := seq 0 n.

(** concurrent.ts *)

(** [Array.from({ length: totalQueries }, () => limit(async () => ...))] *)
Definition uniform_tasks (pool : nat -> operation -> outcome) (totalQueries : nat)
  : list outcome :=
  map (fun i => pool i read) (indices totalQueries).

Definition runConcurrentPostgis (ctx : BenchmarkContext) (totalQueries concurrency : nat)
    (sched : list nat) : Z + thrown :=
  limited_sum concurrency sched (uniform_tasks (pgPool ctx) totalQueries).

Definition runConcurrentMssql (ctx : BenchmarkContext) (totalQueries concurrency : nat)
    (sched : list nat) : Z + thrown :=
  limited_sum concurrency sched (uniform_tasks (mssqlPool ctx) totalQueries).

(** mixed-workload.ts *)

Definition lt_num (a b : Q) : bool := negb (Qle_bool b a).

(** [Math.random() < writeRatio ? 'write' : 'read'] *)
Definition choose_operation (draw writeRatio : Q) : operation :=
  if lt_num draw writeRatio then write else read.

(** [Array.from({ length: totalOps }, () => ...)]: slot [i] uses the
    [i]-th value returned by [Math.random]. *)
Definition draw_operations (random : nat -> Q) (totalOps : nat) (writeRatio : Q)
  : list operation :=
  map (fun i => choose_operation (random i) writeRatio) (indices totalOps).

Definition issue (ctx : BenchmarkContext) (i : nat) (op : operation) : outcome :=
  match database ctx with
  | postgis => pgPool ctx i op
  | mssql => mssqlPool ctx i op
  end.

(** [ops.map((op) => limit(async () => ...))] *)
Definition mixed_tasks (ctx : BenchmarkContext) (ops : list operation) : list outcome :=
  map (fun '(i, op) => issue ctx i op) (combine (indices (List.length ops)) ops).

Definition mixedWorkload (random : nat -> Q) (ctx : BenchmarkContext)
    (totalOps : nat) (writeRatio : Q) (concurrency : nat) (sched : list nat)
  : Z + thrown :=
  let ops := draw_operations random totalOps writeRatio in
  limited_sum concurrency sched (mixed_tasks ctx ops).

(** Sum of the row counts of the tasks that resolve. *)
Definition rows_of (o : outcome) : Z := task_effect o 0.

Definition succeeded_rows (tasks : list outcome) : Z :=
  fold_right (fun o acc => (rows_of o + acc)%Z) 0%Z tasks.

Definition fails (o : outcome) : bool :=
  match o with
  | Fails _ => true
  | Rows _ => false
  end.

(** What a driver call makes of its tasks' outcomes: the sum of all row
    counts when every task resolves, and otherwise a rejection whose reason
    is the one thrown by one of the failing tasks. *)
Definition sum_or_rejection (result : Z + thrown) (tasks : list outcome) : Prop :=
  (forallb (fun o => negb (fails o)) tasks = true ->
   result = inl (succeeded_rows tasks))
  /\ (existsb fails tasks = true ->
      exists e, result = inr e /\ In (Fails e) tasks).

(** No task is cancelled: in the end nothing is queued or running and the
    accumulator holds the rows of every task that resolved. *)
Definition all_settle (final : dispatch) (tasks : list outcome) : Prop :=
  queue final = [] /\ active final = []
  /\ totalRows final = succeeded_rows tasks.

End Workload.

(* ================================================================== *)
(** ** utils/docker-stats.ts *)
(* ================================================================== *)

Module DockerStats.

Record ResourceSnapshot := mkSnapshot {
  runId : string;
  container : string;
  timestamp : string;
  cpuPercent : Q;
  memoryUsageMb : Q;
  memoryLimitMb : Q;
  networkRxBytes : Q;
  networkTxBytes : Q
}.

(** The parsed fields of one [docker stats --no-stream] answer. *)
Record reading := mkReading {
  rd_cpuPercent : Q;
  rd_memoryUsageMb : Q;
  rd_memoryLimitMb : Q;
  rd_networkRxBytes : Q;
  rd_networkTxBytes : Q
}.

(** The collector's closure variable [timer], the interval timers armed in
    the event loop, and the [resource_snapshots] table it appends to.
    [polls] counts the calls of [poll] made so far. *)
Record collector := mkCollector {
  timer : option nat;
  armed : list nat;
  next_timer : nat;
  polls : nat;
  snapshots : list ResourceSnapshot
}.

Section Collector.

Variable run_id : string.
Variable containers : list string.

(** [execSync("docker stats ...")] followed by [JSON.parse] and the field
    parsers, for a container during a given poll: [None] when the command
    throws, prints nothing, or prints something that does not parse. *)
Variable probe : string -> nat -> option reading.
Variable date_iso : nat -> string.

(** The body of [for (const container of containers)].  The insert into
    [resource_snapshots] is taken to succeed; [new Date()] is read once
    per snapshot written. *)
Definition poll_container (tick : nat) (table : list ResourceSnapshot) (c : string)
  : list ResourceSnapshot :=
  match probe c tick with
  | Some r =>
      table ++ [ {| runId := run_id;
                    container := c;
                    timestamp := date_iso (List.length table);
                    cpuPercent := rd_cpuPercent r;
                    memoryUsageMb := rd_memoryUsageMb r;
                    memoryLimitMb := rd_memoryLimitMb r;
                    networkRxBytes := rd_networkRxBytes r;
                    networkTxBytes := rd_networkTxBytes r |} ]
  | None => table
  end.

Definition poll (st : collector) : collector :=
  mkCollector (timer st) (armed st) (next_timer st) (S (polls st))
    (fold_left (poll_container (polls st)) containers (snapshots st)).

(** [timer = setInterval(poll, intervalMs)] *)
Definition setInterval (st : collector) : collector :=
  mkCollector (Some (next_timer st)) (next_timer st :: armed st)
    (S (next_timer st)) (polls st) (snapshots st).

Definition clearInterval (id : nat) (l : list nat) : list nat :=
  filter (fun t => negb (t =? id)%nat) l.

Definition start (st : collector) : collector :=
  setInterval (poll st).

Definition stop (st : collector) : collector :=
  match timer st with
  | Some id =>
      mkCollector None (clearInterval id (armed st)) (next_timer st)
        (polls st) (snapshots st)
  | None => st
  end.

(** One interval elapses: every timer that is still armed calls [poll]. *)
Definition interval_elapses (st : collector) : collector :=
  fold_left (fun s _ => poll s) (armed st) st.

(** [createDockerStatsCollector(...)]: nothing armed, [timer = null]. *)
Definition created (table : list ResourceSnapshot) : collector :=
  mkCollector None [] 0 0 table.

Definition reachable (tick : nat) (c : string) : bool :=
  match probe c tick with
  | Some _ => true
  | None => false
  end.

End Collector.

End DockerStats.

(* ================================================================== *)
(** ** utils/results-db.ts *)
(* ================================================================== *)

Module ResultsDb.

Open Scope string_scope.

(** A row of [benchmark_results]. *)
Record result_row := mkResultRow {
  id : nat;
  run_id : string;
  suite : string;
  benchmark : string;
  database : string;
  scale : Z;
  iteration : nat;
  query_time_ms : Q;
  rows_returned : Z;
  query_plan : option string;
  error : option string;
  timestamp : string
}.

(** A row of [runs]; [run_id] is the primary key. *)
Record run_row := mkRunRow {
  runs_run_id : string;
  started_at : string;
  finished_at : option string;
  config_json : option string
}.

Record Database := mkDatabase {
  benchmark_results : list result_row;
  runs : list run_row
}.

Definition database_name (d : QueryRunner.DatabaseTarget) : string :=
  match d with
  | QueryRunner.postgis => "postgis"
  | QueryRunner.mssql => "mssql"
  end.

(** [INSERT INTO benchmark_results (...) VALUES (...)] *)
Definition insertResult (d : Database) (r : QueryRunner.BenchmarkResult) : Database :=
  mkDatabase
    (benchmark_results d ++
     [ {| id := S (List.length (benchmark_results d));
          run_id := QueryRunner.runId r;
          suite := QueryRunner.suite r;
          benchmark := QueryRunner.benchmark r;
          database := database_name (QueryRunner.database r);
          scale := QueryRunner.scale r;
          iteration := QueryRunner.iteration r;
          query_time_ms := QueryRunner.queryTimeMs r;
          rows_returned := QueryRunner.rowsReturned r;
          query_plan := QueryRunner.queryPlan r;
          error := QueryRunner.error r;
          timestamp := QueryRunner.timestamp r |} ])
    (runs d).

Definition insertResults (d : Database) (results : list QueryRunner.BenchmarkResult)
  : Database :=
  fold_left insertResult results d.

Inductive sqlite_error := SQLITE_CONSTRAINT_PRIMARYKEY.

(** [INSERT INTO runs (run_id, started_at, config_json) VALUES (?, ?, ?)] *)
Definition insertRun (now : string) (d : Database) (runId configJson : string)
  : Database + sqlite_error :=
  if existsb (fun r => runs_run_id r =? runId) (runs d)
  then inr SQLITE_CONSTRAINT_PRIMARYKEY
  else inl (mkDatabase (benchmark_results d)
              (runs d ++ [ mkRunRow runId now None (Some configJson) ])).

(** [UPDATE runs SET finished_at = ? WHERE run_id = ?], row by row. *)
Definition update_finished_at (now runId : string) (r : run_row) : run_row :=
  if runs_run_id r =? runId
  then mkRunRow (runs_run_id r) (started_at r) (Some now) (config_json r)
  else r.

(** The statement's [changes]: the number of rows the [WHERE] matched. *)
Definition changes (runId : string) (rows : list run_row) : nat :=
  List.length (filter (fun r => runs_run_id r =? runId) rows).

(** [finishRun] returns nothing; the model returns the database after the
    update together with the statement's [changes].  An [UPDATE] that
    matches no row is not an error in SQLite. *)
Definition finishRun (now : string) (d : Database) (runId : string)
  : (Database * nat) + sqlite_error :=
  inl (mkDatabase (benchmark_results d)
         (map (update_finished_at now runId) (runs d)),
       changes runId (runs d)).

(** The columns of [SELECT DISTINCT suite, benchmark, database, scale]. *)
Definition group := (string * string * string * Z)%type.

Definition group_of (r : result_row) : group :=
  (suite r, benchmark r, database r, scale r).

Definition group_eqb (g h : group) : bool :=
  let '(s1, b1, d1, c1) := g in
  let '(s2, b2, d2, c2) := h in
  (s1 =? s2) && (b1 =? b2) && (d1 =? d2) && (c1 =? c2)%Z.

(** [SELECT DISTINCT]: each value once, in order of first appearance. *)
Fixpoint distinct (seen : list group) (l : list group) : list group :=
  match l with
  | [] => []
  | g :: rest =>
      if existsb (group_eqb g) seen then distinct seen rest
      else g :: distinct (g :: seen) rest
  end.

Definition is_null {A} (v : option A) : bool :=
  match v with
  | None => true
  | Some _ => false
  end.

Record BenchmarkStats := mkBenchmarkStats {
  bs_suite : string;
  bs_benchmark : string;
  bs_database : string;
  bs_scale : Z;
  bs_stats : Metrics.Stats
}.

(** The group a statistics row is about. *)
Definition group_of_stats (row : BenchmarkStats) : group :=
  (bs_suite row, bs_benchmark row, bs_database row, bs_scale row).

Section Queries.

(** [SELECT DISTINCT suite, benchmark, database, scale
     FROM benchmark_results WHERE run_id = ?] *)
Definition select_groups (d : Database) (runId : string) : list group :=
  distinct [] (map group_of
    (filter (fun r => run_id r =? runId) (benchmark_results d))).

(** [SELECT query_time_ms FROM benchmark_results
     WHERE run_id = ? AND suite = ? AND benchmark = ? AND database = ?
     AND scale = ? AND error IS NULL] *)
Definition select_times (d : Database) (runId : string) (g : group) : list Q :=
  map query_time_ms
    (filter (fun r => (run_id r =? runId) && group_eqb (group_of r) g
                      && is_null (error r))
            (benchmark_results d)).

Definition getStatsForRun (d : Database) (runId : string) : list BenchmarkStats :=
  map (fun g =>
         let times := select_times d runId g in
         let stats := Metrics.computeStats times in
         let '(s, b, db, sc) := g in
         {| bs_suite := s;
            bs_benchmark := b;
            bs_database := db;
            bs_scale := sc;
            bs_stats := stats |})
      (select_groups d runId).

End Queries.

End ResultsDb.

(* ================================================================== *)
(** ** More of the benchmark package

    The modules below embed the remaining functions of the files above
    and their callers: the rest of utils/results-db.ts, the summary and
    the run of runner.ts, and the suite cases of suites/concurrent.ts and
    suites/mixed-workload.ts. *)
(* ================================================================== *)

Module MetricsEq.

Import Metrics.
Open Scope Q_scope.

(** Two results of [percentile] are the same number, or both are not a
    number. *)
Definition same_number (a b : number) : Prop :=
  match a, b with
  | Some x, Some y => x == y
  | None, None => True
  | _, _ => False
  end.

End MetricsEq.

(** *** utils/results-db.ts: reading back *)

Module ResultsQueries.

Import ResultsDb.
Open Scope string_scope.

(** [SELECT * FROM benchmark_results WHERE run_id = ?] *)
Definition getResultsByRun (d : Database) (runId : string) : list result_row :=
  filter (fun r => run_id r =? runId) (benchmark_results d).

(** A row holds the values that [insertResult] binds for a result. *)
Definition stored_as (r : QueryRunner.BenchmarkResult) (row : result_row) : Prop :=
  run_id row = QueryRunner.runId r
  /\ suite row = QueryRunner.suite r
  /\ benchmark row = QueryRunner.benchmark r
  /\ database row = database_name (QueryRunner.database r)
  /\ scale row = QueryRunner.scale r
  /\ iteration row = QueryRunner.iteration r
  /\ query_time_ms row = QueryRunner.queryTimeMs r
  /\ rows_returned row = QueryRunner.rowsReturned r
  /\ query_plan row = QueryRunner.queryPlan r
  /\ error row = QueryRunner.error r
  /\ timestamp row = QueryRunner.timestamp r.

(** [id INTEGER PRIMARY KEY AUTOINCREMENT] on a table nothing is deleted
    from: the rows are numbered 1, 2, 3, ... *)
Definition numbered (d : Database) : Prop :=
  map id (benchmark_results d) = seq 1 (List.length (benchmark_results d)).

(** Run ids are the primary key of [runs]. *)
Definition run_ids (d : Database) : list string := map runs_run_id (runs d).

End ResultsQueries.

(** *** runner.ts: the summary line of a case *)

Module RunnerSummary.

Import QueryRunner.

(** Truthiness of an optional string: [undefined] and the empty string
    are falsy. *)
Definition truthy (s : option string) : bool :=
  match s with
  | None => false
  | Some EmptyString => false
  | Some (String _ _) => true
  end.

(** The line printed after a case: statistics, or
    [FAILED (errors/total errors)]. *)
Inductive summary_line :=
| Statistics (stats : Metrics.Stats)
| FAILED (errors total : nat).

(** [const times = results.filter((r) => !r.error).map((r) => r.queryTimeMs)] *)
Definition summary_times (results : list BenchmarkResult) : list Q :=
  map queryTimeMs (filter (fun r => negb (truthy (error r))) results).

Definition summarize (results : list BenchmarkResult) : summary_line :=
  let times := summary_times results in
  if (0 <? List.length times)%nat then Statistics (Metrics.computeStats times)
  else FAILED (List.length (filter (fun r => truthy (error r)) results))
              (List.length results).

End RunnerSummary.

(** *** utils/docker-stats.ts: a collector over time *)

Module Sampler.

Import DockerStats.

(** What can happen to a collector: a call of [start], a call of [stop],
    or the passing of one interval. *)
Inductive event := Start | Stop | Interval.

Section Events.

Variable run_id : string.
Variable containers : list string.
Variable probe : string -> nat -> option reading.
Variable date_iso : nat -> string.

Definition happen (st : collector) (e : event) : collector :=
  match e with
  | Start => start run_id containers probe date_iso st
  | Stop => stop st
  | Interval => interval_elapses run_id containers probe date_iso st
  end.

Definition happen_all (events : list event) (st : collector) : collector :=
  fold_left happen events st.

End Events.

(** A snapshot written for this run and for a configured container. *)
Definition tagged (run_id : string) (containers : list string)
    (s : ResourceSnapshot) : Prop :=
  runId s = run_id /\ In (container s) containers.

(** At most the timer held in [timer] is armed. *)
Definition tidy (st : collector) : Prop :=
  armed st = match timer st with
             | Some id => [id]
             | None => []
             end.

End Sampler.

(** *** suites/concurrent.ts and suites/mixed-workload.ts: the cases *)

Module Suites.

Import QueryRunner.
Open Scope Q_scope.

Record bbox := mkBbox {
  minLon : Q;
  minLat : Q;
  maxLon : Q;
  maxLat : Q
}.

(** [randomAmsterdamBbox] of concurrent.ts and [randomBbox] of
    mixed-workload.ts, which have the same body; [d1], [d2], [d3] are the
    three values [Math.random()] returns, in order. *)
Definition randomAmsterdamBbox (d1 d2 d3 : Q) : bbox :=
  let lon := 4.8 + d1 * 0.15 in
  let lat := 52.3 + d2 * 0.08 in
  let size := 0.01 + d3 * 0.04 in
  {| minLon := lon; minLat := lat; maxLon := lon + size; maxLat := lat + size |}.

Definition randomBbox (d1 d2 d3 : Q) : bbox := randomAmsterdamBbox d1 d2 d3.

Record point := mkPoint {
  lon : Q;
  lat : Q
}.

Definition randomPoint (d1 d2 : Q) : point :=
  {| lon := 3.37 + d1 * (7.21 - 3.37);
     lat := 50.75 + d2 * (53.47 - 50.75) |}.

(** What the benchmarked databases and the event loop do during the
    [k]-th call of a case: the behaviour of the two pools, the order in
    which running queries settle, and the values of [Math.random()]. *)
Record surroundings := mkSurroundings {
  pg : nat -> nat -> Workload.operation -> Workload.outcome;
  ms : nat -> nat -> Workload.operation -> Workload.outcome;
  settles : nat -> list nat;
  random : nat -> nat -> Q
}.

Definition pools (env : surroundings) (ctx : BenchmarkContext) (k : nat)
  : Workload.BenchmarkContext :=
  Workload.mkContext (ctx_database ctx) (pg env k) (ms env k).

(** [return { rowsReturned: rows }] after an awaited driver call. *)
Definition returned (driver : Z + thrown) : BenchmarkCaseResult + thrown :=
  match driver with
  | inl rows => inl (mkCaseResult (inl rows) (inl None))
  | inr err => inr err
  end.

Definition TOTAL_QUERIES : nat := 100.
Definition CONCURRENCY : nat := 10.

(** The [fn] of the cases of concurrent.ts. *)
Definition concurrent_fn (env : surroundings) (totalQueries concurrency : nat)
    (ctx : BenchmarkContext) (k : nat) : BenchmarkCaseResult + thrown :=
  match ctx_database ctx with
  | postgis =>
      returned (Workload.runConcurrentPostgis (pools env ctx k)
                  totalQueries concurrency (settles env k))
  | mssql =>
      returned (Workload.runConcurrentMssql (pools env ctx k)
                  totalQueries concurrency (settles env k))
  end.

Definition concurrent_cases (env : surroundings) : list BenchmarkCase :=
  [ mkCase "concurrent-intersects-c5" (concurrent_fn env TOTAL_QUERIES 5);
    mkCase "concurrent-intersects-c10" (concurrent_fn env TOTAL_QUERIES 10);
    mkCase "concurrent-intersects-c25" (concurrent_fn env TOTAL_QUERIES 25);
    mkCase "concurrent-intersects-c50" (concurrent_fn env 200 50) ].

(** The [fn] of the cases of mixed-workload.ts. *)
Definition mixed_fn (env : surroundings) (totalOps : nat) (writeRatio : Q)
    (ctx : BenchmarkContext) (k : nat) : BenchmarkCaseResult + thrown :=
  returned (Workload.mixedWorkload (random env k) (pools env ctx k)
              totalOps writeRatio CONCURRENCY (settles env k)).

Definition mixed_cases (env : surroundings) : list BenchmarkCase :=
  [ mkCase "mixed-80read-20write" (mixed_fn env 500 0.2);
    mkCase "mixed-50read-50write" (mixed_fn env 500 0.5);
    mkCase "mixed-95read-5write" (mixed_fn env 500 0.05) ].

(** The queries a call of a case dispatches. *)
Definition concurrent_tasks (env : surroundings) (totalQueries : nat)
    (ctx : BenchmarkContext) (k : nat) : list Workload.outcome :=
  match ctx_database ctx with
  | postgis => Workload.uniform_tasks (pg env k) totalQueries
  | mssql => Workload.uniform_tasks (ms env k) totalQueries
  end.

Definition mixed_tasks (env : surroundings) (totalOps : nat) (writeRatio : Q)
    (ctx : BenchmarkContext) (k : nat) : list Workload.outcome :=
  Workload.mixed_tasks (pools env ctx k)
    (Workload.draw_operations (random env k) totalOps writeRatio).

(** How the record of a timed iteration reflects the queries that the
    iteration dispatched: their summed rows when all of them succeed, and
    otherwise no rows and the error text of one of the failing queries. *)
Definition reflects (tasks : list Workload.outcome) (r : BenchmarkResult) : Prop :=
  (forallb (fun o => negb (Workload.fails o)) tasks = true ->
   error r = None /\ rowsReturned r = Workload.succeeded_rows tasks)
  /\ (existsb Workload.fails tasks = true ->
      exists e text, In (Workload.Fails e) tasks
                     /\ error_text e = inl text
                     /\ error r = Some text /\ rowsReturned r = 0%Z).

End Suites.

(** *** p-limit's discipline *)

Module Dispatch.

Import Workload.
Open Scope nat_scope.

(** What p-limit guarantees at every turn: the tasks still queued are a
    tail of the dispatched list, no more than [concurrency] tasks run, and
    a task waits only while all [concurrency] slots are taken. *)
Definition within_limit (concurrency : nat) (tasks : list outcome) (st : dispatch)
  : Prop :=
  (exists n, queue st = skipn n tasks)
  /\ List.length (active st) <= concurrency
  /\ let '(q, a) := start_queued (concurrency - List.length (active st))
                      (queue st) (active st) in
     List.length a <= concurrency
     /\ (q <> [] -> List.length a = concurrency).

End Dispatch.

(** *** runner.ts: discovery and the run *)

Module Runner.

Import QueryRunner RunnerSummary.
Open Scope string_scope.

(** types.ts: a suite.  A hook is an asynchronous function of the context
    that resolves ([None]) or rejects ([Some err]). *)
Record BenchmarkSuite := mkSuite {
  suite_name : string;
  databases : list DatabaseTarget;
  cases : list BenchmarkCase;
  setup : option (BenchmarkContext -> option thrown);
  teardown : option (BenchmarkContext -> option thrown)
}.

Record RunnerConfig := mkConfig {
  suites : list string;
  cfg_databases : list DatabaseTarget;
  scales : list Z;
  cfg_iterations : nat;
  cfg_warmupIterations : nat;
  concurrencyLevels : list nat;
  dbPath : string;
  collectDockerStats : bool;
  dockerContainers : list string
}.

Definition DEFAULT_CONFIG : RunnerConfig :=
  {| suites := [];
     cfg_databases := [postgis; mssql];
     scales := [5000%Z; 2000000%Z];
     cfg_iterations := 50;
     cfg_warmupIterations := 3;
     concurrencyLevels := [1; 5; 10; 25; 50]%nat;
     dbPath := "results/benchmark-results.db";
     collectDockerStats := true;
     dockerContainers := ["bench-postgis"; "bench-mssql"] |}.

(** *** Suite discovery *)

(** [f.endsWith(suffix)] and [f.startsWith(prefix)] *)
Definition endsWith (f suffix : string) : bool :=
  (String.length suffix <=? String.length f)%nat
  && (substring (String.length f - String.length suffix) (String.length suffix) f
      =? suffix).

Definition startsWith (f prefix : string) : bool := String.prefix prefix f.

(** What [await import(file)] gives: it rejects, or it yields a module
    whose default export is absent or a suite object. *)
Inductive imported :=
| ImportFails (err : thrown)
| Module_exports (default : option BenchmarkSuite).

(** [!suite?.name || !suite?.cases]: no default export, or an empty name.
    An array of cases is truthy even when it is empty. *)
Definition invalid_export (default : option BenchmarkSuite) : bool :=
  match default with
  | None => true
  | Some s => (suite_name s =? "")
  end.

Definition is_suite_file (f : string) : bool :=
  (endsWith f ".ts" || endsWith f ".js") && negb (startsWith f "_").

(** The loop over [suiteFiles]; the first import that rejects ends it. *)
Fixpoint load_suites (filter : list string) (files : list (string * imported))
    (found : list BenchmarkSuite) : list BenchmarkSuite + thrown :=
  match files with
  | [] => inl found
  | (file, ImportFails err) :: rest => inr err
  | (file, Module_exports default) :: rest =>
      match default with
      | Some s =>
          if invalid_export default then load_suites filter rest found
          else if (0 <? List.length filter)%nat
                  && negb (existsb (String.eqb (suite_name s)) filter)
               then load_suites filter rest found
               else load_suites filter rest (found ++ [s])
      | None => load_suites filter rest found
      end
  end.

(** [discoverSuites(filter)].  The directory is given by its entries in
    [readdir] order, each with what importing it would give; [None] is a
    directory that cannot be read. *)
Definition discoverSuites (directory : option (list (string * imported)))
    (filter : list string) : list BenchmarkSuite + thrown :=
  match directory with
  | None => inl []
  | Some files =>
      load_suites filter (List.filter (fun e => is_suite_file (fst e)) files) []
  end.

(** *** The run *)

(** What [main] works on: the results database, the [statsCollector]
    variable ([None] is [null]), the counters of the case executor, the
    number of connections asked of the SQL Server pool, and the summary
    lines printed so far. *)
Record process := mkProcess {
  store : ResultsDb.Database;
  statsCollector : option DockerStats.collector;
  counters : world;
  connections : nat;
  console : list summary_line
}.

(** Steps of [main]: they change the process and may throw. *)
Definition Run (A : Type) : Type := process -> (A + thrown) * process.

Definition unit_ {A} (a : A) : Run A := fun p => (inl a, p).

Definition throw {A} (err : thrown) : Run A := fun p => (inr err, p).

Definition and_then {A B} (m : Run A) (f : A -> Run B) : Run B :=
  fun p => match m p with
           | (inl a, p') => f a p'
           | (inr e, p') => (inr e, p')
           end.

(** [try { body } finally { cleanup }]: the cleanup runs either way; the
    outcome is that of the body unless the cleanup itself throws. *)
Definition try_finally {A} (body : Run A) (cleanup : Run unit) : Run A :=
  fun p => let '(outcome, p1) := body p in
           match cleanup p1 with
           | (inl _, p2) => (outcome, p2)
           | (inr e, p2) => (inr e, p2)
           end.

(** [for (const x of l) { body }] *)
Fixpoint for_each {A} (l : list A) (body : A -> Run unit) : Run unit :=
  match l with
  | [] => unit_ tt
  | x :: rest => and_then (body x) (fun _ => for_each rest body)
  end.

Definition constraint_failed : thrown :=
  mkThrown (inl (Some "UNIQUE constraint failed: runs.run_id"))
           (inl "SqliteError: UNIQUE constraint failed: runs.run_id").

Section Main.

(** The clocks of the case executor. *)
Variable performance_now : nat -> Q.
Variable date_iso : nat -> string.

(** [docker stats] as the collector sees it, and how many sampling
    intervals elapse while the case that prints the [k]-th summary line
    runs. *)
Variable probe : string -> nat -> option DockerStats.reading.
Variable intervals : nat -> nat.

(** The [resource_snapshots] table as the collector finds it. *)
Variable resource_snapshots : list DockerStats.ResourceSnapshot.

(** [await getMssqlPool()], by the number of earlier calls: it connects
    ([None]) or rejects. *)
Variable getMssqlPool : nat -> option thrown.

Variable config : RunnerConfig.
Variable runId : string.

(** [new Date().toISOString()] *)
Definition now : Run string :=
  fun p => (inl (date_iso (date_reads (counters p))),
            mkProcess (store p) (statsCollector p)
              (mkWorld (fn_calls (counters p)) (perf_reads (counters p))
                       (S (date_reads (counters p))))
              (connections p) (console p)).

(** [insertRun(dbPath, runId, JSON.stringify(config))] *)
Definition insert_run (configJson : string) : Run unit :=
  and_then now (fun started p =>
    match ResultsDb.insertRun started (store p) runId configJson with
    | inl d => (inl tt, mkProcess d (statsCollector p) (counters p)
                          (connections p) (console p))
    | inr _ => (inr constraint_failed, p)
    end).

(** [finishRun(dbPath, runId)] *)
Definition finish_run : Run unit :=
  and_then now (fun finished p =>
    match ResultsDb.finishRun finished (store p) runId with
    | inl (d, _) => (inl tt, mkProcess d (statsCollector p) (counters p)
                               (connections p) (console p))
    | inr _ => (inr constraint_failed, p)
    end).

(** [statsCollector = createDockerStatsCollector(...); statsCollector.start()] *)
Definition start_collector : Run unit :=
  fun p =>
    if collectDockerStats config
    then (inl tt,
          mkProcess (store p)
            (Some (DockerStats.start runId (dockerContainers config) probe date_iso
                     (DockerStats.created resource_snapshots)))
            (counters p) (connections p) (console p))
    else (inl tt, p).

(** [statsCollector?.stop()] *)
Definition stop_collector : Run unit :=
  fun p => (inl tt,
            mkProcess (store p) (option_map DockerStats.stop (statsCollector p))
              (counters p) (connections p) (console p)).

(** The sampling timers that fire while a case is awaited. *)
Definition sample (n : nat) (c : DockerStats.collector) : DockerStats.collector :=
  Nat.iter n (DockerStats.interval_elapses runId (dockerContainers config)
                probe date_iso) c.

(** Building the context: [await getMssqlPool()] when the database is
    SQL Server. *)
Definition build_context (database : DatabaseTarget) (scale : Z)
  : Run BenchmarkContext :=
  fun p =>
    match database with
    | postgis => (inl (mkContext database scale), p)
    | mssql =>
        let p' := mkProcess (store p) (statsCollector p) (counters p)
                    (S (connections p)) (console p) in
        match getMssqlPool (connections p) with
        | None => (inl (mkContext database scale), p')
        | Some e => (inr e, p')
        end
    end.

(** [if (suite.setup) await suite.setup(ctx)], likewise for teardown. *)
Definition run_hook (hook : option (BenchmarkContext -> option thrown))
    (ctx : BenchmarkContext) : Run unit :=
  match hook with
  | None => unit_ tt
  | Some h => match h ctx with
              | None => unit_ tt
              | Some e => throw e
              end
  end.

(** One case: run it, store its records, print its summary. *)
Definition run_case (suite : BenchmarkSuite) (database : DatabaseTarget) (scale : Z)
    (ctx : BenchmarkContext) (benchCase : BenchmarkCase) : Run unit :=
  fun p =>
    let opts := mkOptions runId (suite_name suite) database scale
                  (cfg_iterations config) (cfg_warmupIterations config) in
    match runBenchmarkCase performance_now date_iso benchCase ctx opts (counters p) with
    | (inl results, w) =>
        (inl tt,
         mkProcess (ResultsDb.insertResults (store p) results)
           (option_map (sample (intervals (List.length (console p))))
                       (statsCollector p))
           w (connections p) (console p ++ [summarize results]))
    | (inr e, w) =>
        (inr e, mkProcess (store p) (statsCollector p) w (connections p) (console p))
    end.

Definition supports (suite : BenchmarkSuite) (database : DatabaseTarget) : bool :=
  existsb (fun d => match d, database with
                    | postgis, postgis | mssql, mssql => true
                    | _, _ => false
                    end) (databases suite).

(** The body of the three nested loops. *)
Definition run_combination (suite : BenchmarkSuite) (database : DatabaseTarget)
    (scale : Z) : Run unit :=
  and_then (build_context database scale) (fun ctx =>
  and_then (run_hook (setup suite) ctx) (fun _ =>
  and_then (for_each (cases suite) (run_case suite database scale ctx)) (fun _ =>
  run_hook (teardown suite) ctx))).

Definition run_suites (found : list BenchmarkSuite) : Run unit :=
  for_each found (fun suite =>
    for_each (cfg_databases config) (fun database =>
      if supports suite database
      then for_each (scales config) (run_combination suite database)
      else unit_ tt)).

(** The [finally] block.  [closeDb()] and [closeAll()] release handles
    that are not part of the process here. *)
Definition cleanup : Run unit :=
  and_then stop_collector (fun _ => finish_run).

Definition main (configJson : string)
    (directory : option (list (string * imported))) : Run unit :=
  and_then (insert_run configJson) (fun _ =>
    match discoverSuites directory (suites config) with
    | inr e => throw e
    | inl [] => finish_run
    | inl found =>
        and_then start_collector (fun _ =>
          try_finally (run_suites found) cleanup)
    end).

End Main.

(** What the body of the [try] never changes: the run records, and that
    at most the remembered timer is armed. *)
Definition steady (records : list ResultsDb.run_row) (p : process) : Prop :=
  ResultsDb.runs (store p) = records
  /\ match statsCollector p with
     | Some s => Sampler.tidy s
     | None => True
     end.

Definition keeps {A} (records : list ResultsDb.run_row) (m : Run A) : Prop :=
  forall p outcome p', m p = (outcome, p') -> steady records p -> steady records p'.

(** The cases a run executes, in execution order: for every discovered
    suite, every configured database the suite supports and every
    configured scale, the cases of the suite. *)
Definition planned_case := (BenchmarkSuite * DatabaseTarget * Z * BenchmarkCase)%type.

Definition plan (config : RunnerConfig) (found : list BenchmarkSuite)
  : list planned_case :=
  flat_map
    (fun s =>
       flat_map
         (fun db =>
            if supports s db
            then flat_map (fun sc => map (fun c => (s, db, sc, c)) (cases s))
                          (scales config)
            else [])
         (cfg_databases config))
    found.

Definition planned (config : RunnerConfig) (found : list BenchmarkSuite) : nat :=
  List.length (plan config found).

(** The records of one execution of a planned case: one per timed
    iteration, numbered from 1, each tagged with the run, the suite, the
    case, the database and the scale. *)
Definition records_of_case (config : RunnerConfig) (runId : string)
    (planned : planned_case) (records : list BenchmarkResult) : Prop :=
  let '(s, db, sc, c) := planned in
  map iteration records = seq 1 (cfg_iterations config)
  /\ forall r, In r records ->
       QueryRunner.runId r = runId
       /\ suite r = suite_name s
       /\ benchmark r = name c
       /\ database r = db
       /\ scale r = sc.

(** A step that returns normally after executing the given cases, in
    order: it appends the records of each to the store and prints the
    summary line of each. *)
Definition executes {A} (config : RunnerConfig) (runId : string)
    (done : list planned_case) (m : Run A) : Prop :=
  forall p, exists a p' blocks rows,
    m p = (inl a, p')
    /\ Forall2 (records_of_case config runId) done blocks
    /\ ResultsDb.benchmark_results (store p')
       = (ResultsDb.benchmark_results (store p) ++ rows)%list
    /\ Forall2 ResultsQueries.stored_as (List.concat blocks) rows
    /\ console p' = (console p ++ map summarize blocks)%list.

(** Every hook of the suite resolves. *)
Definition hooks_resolve (s : BenchmarkSuite) : Prop :=
  (forall h ctx, setup s = Some h -> h ctx = None)
  /\ (forall h ctx, teardown s = Some h -> h ctx = None).

(** The run record of [runId] carries a finish time. *)
Definition finished (runId : string) (d : ResultsDb.Database) : Prop :=
  In runId (map ResultsDb.runs_run_id (ResultsDb.runs d))
  /\ forall r, In r (ResultsDb.runs d) -> ResultsDb.runs_run_id r = runId ->
               ResultsDb.finished_at r <> None.

(** No sampling timer is armed. *)
Definition sampler_stopped (c : option DockerStats.collector) : Prop :=
  match c with
  | Some s => DockerStats.timer s = None /\ DockerStats.armed s = []
  | None => True
  end.

End Runner.

(* ================================================================== *)
(** ** Concrete scenarios *)
(* ================================================================== *)

Module Scenarios.

Import QueryRunner.
Open Scope string_scope.

(** A monotonic clock that advances by one millisecond per reading, and a
    wall clock that always prints the same instant. *)
Definition clock (n : nat) : Q := inject_Z (Z.of_nat n).
Definition stamp (n : nat) : string := "2024-01-01T00:00:00.000Z".

Definition amsterdam : BenchmarkContext := mkContext postgis 5000.

Definition options (timed warmup : nat) : QueryRunnerOptions :=
  mkOptions "run-1" "bbox" postgis 5000 timed warmup.

Definition fresh : world := mkWorld 0 0 0.

(** An operation that always succeeds with seven rows. *)
Definition seven_rows : BenchmarkCase :=
  mkCase "bbox-amsterdam" (fun _ _ => inl (mkCaseResult (inl 7%Z) (inl None))).

(** An operation whose every call rejects with [new Error("connection refused")]. *)
Definition refused : BenchmarkCase :=
  mkCase "bbox-amsterdam"
    (fun _ _ => inr (mkThrown (inl (Some "connection refused"))
                              (inl "Error: connection refused"))).

(** An operation whose every call rejects with [new Error()], whose
    [message] is the empty string. *)
Definition silent_failure : BenchmarkCase :=
  mkCase "bbox-amsterdam" (fun _ _ => inr (mkThrown (inl (Some "")) (inl "Error"))).

(** [String(Object.create(null))] throws this [TypeError]. *)
Definition cannot_convert : thrown :=
  mkThrown (inl (Some "Cannot convert object to primitive value"))
           (inl "TypeError: Cannot convert object to primitive value").

(** [Object.create(null)] as a thrown value: it has no [message] and no
    [toString]. *)
Definition bare_object : thrown := mkThrown (inl None) (inr cannot_convert).

(** An operation that returns seven rows, except that its third call
    rejects with [Object.create(null)]. *)
Definition breaks_once : BenchmarkCase :=
  mkCase "bbox-amsterdam"
    (fun _ k => if (k =? 2)%nat then inr bare_object
                else inl (mkCaseResult (inl 7%Z) (inl None))).

(** An operation that rejects with [Object.create(null)] on every call. *)
Definition always_bare : BenchmarkCase :=
  mkCase "bbox-amsterdam" (fun _ _ => inr bare_object).

(** An operation that resolves with
    [{ rowsReturned: 7, get queryPlan() { throw new Error("no plan") } }]. *)
Definition plan_unreadable : BenchmarkCase :=
  mkCase "bbox-amsterdam"
    (fun _ _ => inl (mkCaseResult (inl 7%Z)
                       (inr (mkThrown (inl (Some "no plan")) (inl "Error: no plan"))))).

(** A pool whose second query is terminated and whose other queries
    return three rows each. *)
Definition terminated : thrown :=
  mkThrown (inl (Some "Connection terminated unexpectedly"))
           (inl "Error: Connection terminated unexpectedly").

Definition flaky_pool (i : nat) (op : Workload.operation) : Workload.outcome :=
  if (i =? 1)%nat then Workload.Fails terminated else Workload.Rows 3.

Definition steady_pool (i : nat) (op : Workload.operation) : Workload.outcome :=
  Workload.Rows 3.

Definition flaky : Workload.BenchmarkContext :=
  Workload.mkContext postgis flaky_pool flaky_pool.

Definition steady : Workload.BenchmarkContext :=
  Workload.mkContext postgis steady_pool steady_pool.

(** Pools that tell the two statements apart: a read finds five rows, a
    write inserts one. *)
Definition telling_pool (i : nat) (op : Workload.operation) : Workload.outcome :=
  match op with
  | Workload.read => Workload.Rows 5
  | Workload.write => Workload.Rows 1
  end.

Definition telling : Workload.BenchmarkContext :=
  Workload.mkContext postgis telling_pool telling_pool.

(** A sequence of [Math.random()] values: 0, 0.9, 0, 0.9, ... *)
Definition alternating (i : nat) : Q := if Nat.even i then 0 else 9 # 10.

(** Two monitored containers, both running and both answering. *)
Definition monitored : list string := ["bench-postgis"; "bench-mssql"].

Definition answering (c : string) (tick : nat) : option DockerStats.reading :=
  Some (DockerStats.mkReading (5 # 2) 512 2048 1000 2000).

(** A collector right after [createDockerStatsCollector], on an empty table. *)
Definition idle : DockerStats.collector := DockerStats.created [].

(** A results database in which the only measurement of run ["run-1"]
    carries an error, and whose only run record is that of ["run-1"]. *)
Definition failed_measurement : ResultsDb.result_row :=
  ResultsDb.mkResultRow 1 "run-1" "bbox" "bbox-amsterdam" "postgis" 5000 1
    (3 # 2) 0 None (Some "connection refused") "2024-01-01T00:00:00.000Z".

Definition only_failures : ResultsDb.Database :=
  ResultsDb.mkDatabase [failed_measurement]
    [ResultsDb.mkRunRow "run-1" "2024-01-01T00:00:00.000Z" None (Some "{}")].

(** A results database that already holds a measurement of run ["run-1"],
    for another case of the same suite. *)
Definition earlier_case : ResultsDb.Database :=
  ResultsDb.mkDatabase
    [ ResultsDb.mkResultRow 1 "run-1" "bbox" "bbox-utrecht" "postgis" 5000 1
        (3 # 2) 7 None None "2024-01-01T00:00:00.000Z" ]
    [ResultsDb.mkRunRow "run-1" "2024-01-01T00:00:00.000Z" None (Some "{}")].

End Scenarios.

(** *** Scenarios of whole runs *)

Module RunScenarios.

Import QueryRunner Runner Scenarios.
Open Scope string_scope.

(** A suite of two cases for both databases, without hooks. *)
Definition bbox_suite : BenchmarkSuite :=
  mkSuite "bbox" [postgis; mssql] [seven_rows; refused] None None.

(** A suite whose teardown hook always rejects. *)
Definition leaky_suite : BenchmarkSuite :=
  mkSuite "mixed-workload" [postgis] [seven_rows] None
    (Some (fun _ => Some terminated)).

(** A suites directory: two suite files, a draft that is skipped for its
    underscore, and a file that is no suite file. *)
Definition suites_directory : option (list (string * imported)) :=
  Some [ ("bbox.ts", Module_exports (Some bbox_suite));
         ("_draft.ts", Module_exports (Some leaky_suite));
         ("README.md", Module_exports None);
         ("mixed-workload.js", Module_exports (Some leaky_suite)) ].

(** A suite whose second case rejects with [Object.create(null)]. *)
Definition bare_suite : BenchmarkSuite :=
  mkSuite "bbox" [postgis] [seven_rows; always_bare; seven_rows] None None.

Definition small_config (filter : list string) : RunnerConfig :=
  mkConfig filter [postgis; mssql] [5000%Z] 2 1 [1%nat] "results/benchmark-results.db"
    true monitored.

Definition blank : process :=
  mkProcess (ResultsDb.mkDatabase [] []) None fresh 0 [].

Definition one_interval (k : nat) : nat := 1.
Definition connects (k : nat) : option thrown := None.

End RunScenarios.


(** The example of the specification: five samples. *)
Example computeStats_example :
  let stats := Metrics.computeStats [10; 20; 30; 40; 50]%Q in
  Metrics.count stats = 5%nat
  /\ Metrics.stat_min stats = 10%Q
  /\ Metrics.stat_max stats = 50%Q
  /\ (Metrics.stat_mean stats == 30)%Q
  /\ Metrics.stat_p50 stats = Some 30%Q
  /\ Metrics.percentile [50; 10; 40; 20; 30]%Q 50 = Some 30%Q.
Proof. vm_compute. repeat split; congruence. Qed.

(* ================================================================== *)
(** * Properties *)
(* ================================================================== *)

(** ** Statistics engine *)

Section MetricsFacts.

Import Metrics.
Open Scope Q_scope.

Lemma leb_le (a b : Q) : AscendingOrder.leb a b = true <-> a <= b.
Proof.
  unfold AscendingOrder.leb, compareFn. rewrite Qle_bool_iff. split; intro; lra.
Qed.

Lemma sort_copy_permutation (values : list Q) :
  Permutation values (sort_copy values).
Proof. apply NumberSort.Permuted_sort. Qed.

Lemma sort_copy_length (values : list Q) :
  List.length (sort_copy values) = List.length values.
Proof. symmetry. apply Permutation_length, sort_copy_permutation. Qed.

Lemma sort_copy_sorted (values : list Q) :
  StronglySorted Qle (sort_copy values).
Proof.
  assert (T : Transitive (fun x y => AscendingOrder.leb x y = true)).
  { intros x y z. rewrite !leb_le. apply Qle_trans. }
  pose proof (NumberSort.StronglySorted_sort values T) as S.
  unfold sort_copy. induction S as [|a l _ IH F]; constructor; auto.
  eapply Forall_impl; [|exact F]. intros b. apply leb_le.
Qed.

Lemma at_index_in_range (arr : list Q) (i : Z) :
  (0 <= i < Z.of_nat (List.length arr))%Z ->
  exists x, at_index arr i = Some x /\ In x arr.
Proof.
  intros [H0 H1]. unfold at_index.
  destruct (i <? 0)%Z eqn:E; [apply Z.ltb_lt in E; lia|].
  destruct (nth_error arr (Z.to_nat i)) as [x|] eqn:N.
  - exists x. split; auto. eapply nth_error_In; eauto.
  - apply nth_error_None in N. lia.
Qed.

Lemma rank_bounds (n : nat) (p : Q) :
  (1 <= n)%nat -> 0 <= p <= 100 ->
  let index := (p / 100) * (inject_Z (Z.of_nat n) - 1) in
  (0 <= Qfloor index)%Z /\ (Qfloor index <= Qceiling index)%Z
  /\ (Qceiling index < Z.of_nat n)%Z.
Proof.
  intros Hn [Hp0 Hp1] index.
  assert (Em : inject_Z (Z.of_nat n) - 1 == inject_Z (Z.of_nat n - 1)).
  { unfold Z.sub. rewrite inject_Z_plus, inject_Z_opp. reflexivity. }
  assert (Hm : 0 <= inject_Z (Z.of_nat n - 1)).
  { change 0 with (inject_Z 0). rewrite <- Zle_Qle. lia. }
  assert (Hf : 0 <= p / 100 <= 1).
  { split.
    - apply Qle_shift_div_l; lra.
    - apply Qle_shift_div_r; lra. }
  assert (Hi : 0 <= index <= inject_Z (Z.of_nat n - 1)).
  { unfold index. rewrite Em. split.
    - apply Qmult_le_0_compat; tauto.
    - rewrite <- (Qmult_1_l (inject_Z (Z.of_nat n - 1))) at 2.
      apply Qmult_le_compat_r; tauto. }
  repeat split.
  - change 0%Z with (Qfloor 0). apply Qfloor_resp_le. tauto.
  - rewrite Zle_Qle. apply Qle_floor_ceiling.
  - apply Z.le_lt_trans with (Z.of_nat n - 1)%Z; [|lia].
    rewrite <- (Qceiling_Z (Z.of_nat n - 1)). apply Qceiling_resp_le. tauto.
Qed.

Lemma percentile_long (v1 v2 : Q) (rest : list Q) (p : Q) :
  let values := v1 :: v2 :: rest in
  let sorted := sort_copy values in
  let index := (p / 100) * (length_num values - 1) in
  percentile values p =
    if (Qfloor index =? Qceiling index)%Z then at_index sorted (Qfloor index)
    else interpolate index (Qfloor index)
           (at_index sorted (Qfloor index)) (at_index sorted (Qceiling index)).
Proof.
  intros values sorted index.
  assert (E : length_num sorted = length_num values).
  { unfold length_num, sorted. now rewrite sort_copy_length. }
  unfold index. rewrite <- E. reflexivity.
Qed.

(** C5. Over the ascending-sorted copy [sorted] of a non-empty [values] and
    for [p] between 0 and 100, with [idx = p/100 * (n-1)], [lo = floor idx]
    and [hi = ceil idx], both ranks are inside the array and [percentile]
    returns [sorted[lo] + (idx - lo) * (sorted[hi] - sorted[lo])], which is
    [sorted[lo]] itself when [lo = hi].  A single-element input yields its
    element and an empty input yields 0. *)
Theorem percentile_rank_interpolation :
  (forall (values : list Q) (p : Q),
      values <> [] -> 0 <= p <= 100 ->
      let sorted := sort_copy values in
      let idx := (p / 100) * (length_num values - 1) in
      let lo := Qfloor idx in
      let hi := Qceiling idx in
      Permutation values sorted /\ StronglySorted Qle sorted /\
      exists slo shi r,
        at_index sorted lo = Some slo /\ at_index sorted hi = Some shi /\
        percentile values p = Some r /\
        r == slo + (idx - inject_Z lo) * (shi - slo) /\
        (lo = hi -> r = slo))
  /\ (forall v p, percentile [v] p = Some v)
  /\ (forall p, percentile [] p = Some 0).
Proof.
  split; [|split; reflexivity].
  intros values p Hne Hp sorted idx lo hi.
  split; [apply sort_copy_permutation|]. split; [apply sort_copy_sorted|].
  assert (Hn : (1 <= List.length values)%nat).
  { destruct values; [congruence | simpl; lia]. }
  destruct (rank_bounds (List.length values) p Hn Hp) as (B0 & B1 & B2).
  fold (length_num values) in B0, B1, B2. fold idx in B0, B1, B2.
  fold lo in B0, B1. fold hi in B1, B2.
  destruct (at_index_in_range sorted lo) as (slo & Hlo & _).
  { unfold sorted. rewrite sort_copy_length. lia. }
  destruct (at_index_in_range sorted hi) as (shi & Hhi & _).
  { unfold sorted. rewrite sort_copy_length. lia. }
  exists slo, shi.
  destruct values as [|v1 [|v2 rest]]; [congruence| |].
  - (* one element: the early return agrees with the rank formula *)
    exists v1. repeat split; auto.
    + assert (lo = 0%Z /\ hi = 0%Z) as [El Eh] by (simpl in B2; lia).
      rewrite El in Hlo. rewrite Eh in Hhi.
      change sorted with [v1] in Hlo, Hhi. cbn in Hlo, Hhi.
      injection Hlo as <-. injection Hhi as <-. ring.
    + intros _. assert (El : lo = 0%Z) by (simpl in B2; lia).
      rewrite El in Hlo. change sorted with [v1] in Hlo. cbn in Hlo. congruence.
  - pose proof (percentile_long v1 v2 rest p) as E. cbv zeta in E.
    fold sorted idx lo hi in E.
    fold idx in E. fold lo hi in E. rewrite E, Hlo, Hhi.
    destruct (lo =? hi)%Z eqn:Elh.
    + apply Z.eqb_eq in Elh. exists slo. repeat split; auto.
      rewrite <- Elh, Hlo in Hhi. injection Hhi as <-. ring.
    + apply Z.eqb_neq in Elh.
      exists (slo + (idx - inject_Z lo) * (shi - slo)).
      repeat split; auto; try reflexivity. intros; contradiction.
Qed.

(** Witness for C5: five samples at the 25th percentile. *)
Lemma percentile_rank_interpolation_witness :
  let values := [50; 10; 40; 20; 30] in
  let sorted := sort_copy values in
  let idx := (25 / 100) * (length_num values - 1) in
  Permutation values sorted /\ StronglySorted Qle sorted /\
  exists slo shi r,
    at_index sorted (Qfloor idx) = Some slo /\
    at_index sorted (Qceiling idx) = Some shi /\
    percentile values 25 = Some r /\
    r == slo + (idx - inject_Z (Qfloor idx)) * (shi - slo) /\
    (Qfloor idx = Qceiling idx -> r = slo).
Proof.
  apply (proj1 percentile_rank_interpolation [50; 10; 40; 20; 30] 25).
  - discriminate.
  - split; vm_compute; discriminate.
Defined.

Lemma sorted_nth_le (l : list Q) :
  StronglySorted Qle l ->
  forall i j a b, (i <= j)%nat ->
    nth_error l i = Some a -> nth_error l j = Some b -> a <= b.
Proof.
  induction 1 as [|x l S IH F]; intros i j a b Hij Ha Hb.
  - destruct i; discriminate.
  - destruct i as [|i], j as [|j]; simpl in *; try lia.
    + injection Ha as <-. injection Hb as <-. apply Qle_refl.
    + injection Ha as <-. rewrite Forall_forall in F.
      apply F. eapply nth_error_In; eauto.
    + eapply IH with (i := i) (j := j); eauto. lia.
Qed.

Lemma fold_min_spec (rest : list Q) : forall v,
  let m := fold_left math_min rest v in
  In m (v :: rest) /\ forall y, In y (v :: rest) -> m <= y.
Proof.
  induction rest as [|x rest IH]; intros v; cbn zeta.
  - simpl. split; auto. intros y [<-|[]]. apply Qle_refl.
  - simpl fold_left. destruct (IH (math_min v x)) as [Hin Hle]. split.
    + destruct Hin as [E|Hin]; [|right; right; exact Hin].
      rewrite <- E. unfold math_min. destruct (Qle_bool v x); simpl; auto.
    + intros y Hy.
      assert (Hvx : math_min v x <= v /\ math_min v x <= x).
      { unfold math_min. destruct (Qle_bool v x) eqn:E.
        - apply Qle_bool_iff in E. split; [apply Qle_refl | exact E].
        - split; [|apply Qle_refl].
          destruct (Qlt_le_dec x v) as [L|L]; [apply Qlt_le_weak, L|].
          apply Qle_bool_iff in L. congruence. }
      pose proof (Hle (math_min v x) (or_introl eq_refl)) as Hm.
      destruct Hy as [<-|[<-|Hy]].
      * eapply Qle_trans; [exact Hm | tauto].
      * eapply Qle_trans; [exact Hm | tauto].
      * apply Hle. right. exact Hy.
Qed.

Lemma fold_max_spec (rest : list Q) : forall v,
  let m := fold_left math_max rest v in
  In m (v :: rest) /\ forall y, In y (v :: rest) -> y <= m.
Proof.
  induction rest as [|x rest IH]; intros v; cbn zeta.
  - simpl. split; auto. intros y [<-|[]]. apply Qle_refl.
  - simpl fold_left. destruct (IH (math_max v x)) as [Hin Hle]. split.
    + destruct Hin as [E|Hin]; [|right; right; exact Hin].
      rewrite <- E. unfold math_max. destruct (Qle_bool v x); simpl; auto.
    + intros y Hy.
      assert (Hvx : v <= math_max v x /\ x <= math_max v x).
      { unfold math_max. destruct (Qle_bool v x) eqn:E.
        - apply Qle_bool_iff in E. split; [exact E | apply Qle_refl].
        - split; [apply Qle_refl|].
          destruct (Qlt_le_dec x v) as [L|L]; [apply Qlt_le_weak, L|].
          apply Qle_bool_iff in L. congruence. }
      pose proof (Hle (math_max v x) (or_introl eq_refl)) as Hm.
      destruct Hy as [<-|[<-|Hy]].
      * eapply Qle_trans; [|exact Hm]. tauto.
      * eapply Qle_trans; [|exact Hm]. tauto.
      * apply Hle. right. exact Hy.
Qed.

(** The first element of the sorted copy is the minimum, the last one the
    maximum. *)
Lemma sorted_first_is_min (values : list Q) (x : Q) :
  at_index (sort_copy values) 0 = Some x -> x == min values.
Proof.
  intros Hx. change (nth_error (sort_copy values) 0 = Some x) in Hx.
  pose proof (sort_copy_permutation values) as P.
  pose proof (sort_copy_sorted values) as S.
  destruct values as [|v rest].
  - apply Permutation_nil in P. rewrite P in Hx. discriminate.
  - destruct (fold_min_spec rest v) as [Hin Hle]. simpl min.
    apply Qle_antisym.
    + apply (Permutation_in _ P) in Hin.
      apply In_nth_error in Hin as [j Hj].
      eapply sorted_nth_le with (i := O) (j := j); eauto. lia.
    + apply Hle. apply (Permutation_in _ (Permutation_sym P)).
      eapply nth_error_In; eauto.
Qed.

Lemma sorted_last_is_max (values : list Q) (x : Q) :
  at_index (sort_copy values) (Z.of_nat (List.length values) - 1) = Some x ->
  x == max values.
Proof.
  intros Hx.
  pose proof (sort_copy_permutation values) as P.
  pose proof (sort_copy_sorted values) as S.
  destruct values as [|v rest]; [discriminate|].
  unfold at_index in Hx.
  destruct (Z.of_nat (List.length (v :: rest)) - 1 <? 0)%Z; [discriminate|].
  destruct (fold_max_spec rest v) as [Hin Hle]. simpl max.
  apply Qle_antisym.
  - apply Hle. apply (Permutation_in _ (Permutation_sym P)).
    eapply nth_error_In; eauto.
  - apply (Permutation_in _ P) in Hin.
    apply In_nth_error in Hin as [j Hj].
    assert (H : (j < List.length (sort_copy (v :: rest)))%nat)
      by (apply nth_error_Some; congruence).
    rewrite sort_copy_length in H.
    apply (sorted_nth_le _ S j
             (Z.to_nat (Z.of_nat (List.length (v :: rest)) - 1))); auto.
    lia.
Qed.

(** At a rank that is a whole number the percentile is read off directly. *)
Lemma percentile_at_whole_rank (values : list Q) (p : Q) (k : Z) :
  values <> [] ->
  (p / 100) * (length_num values - 1) == inject_Z k ->
  (0 <= k < Z.of_nat (List.length values))%Z ->
  percentile values p = at_index (sort_copy values) k.
Proof.
  intros Hne Hk Hrange.
  destruct values as [|v1 [|v2 rest]]; [congruence| |].
  - assert (k = 0%Z) as -> by (simpl in Hrange; lia). reflexivity.
  - rewrite percentile_long. cbv zeta.
    rewrite (Qfloor_comp _ _ Hk), (Qceiling_comp _ _ Hk), Qfloor_Z, Qceiling_Z.
    now rewrite Z.eqb_refl.
Qed.

(** C7. On a non-empty sample sequence the 0th percentile is the minimum
    and the 100th percentile is the maximum. *)
Theorem percentile_extremes (values : list Q) :
  values <> [] ->
  (exists r, percentile values 0 = Some r /\ r == min values)
  /\ (exists r, percentile values 100 = Some r /\ r == max values).
Proof.
  intros Hne.
  assert (Hn : (1 <= List.length values)%nat).
  { destruct values; [congruence | simpl; lia]. }
  split.
  - rewrite (percentile_at_whole_rank values 0 0 Hne); [| |lia].
    + destruct (at_index_in_range (sort_copy values) 0) as (x & Hx & _).
      { rewrite sort_copy_length. lia. }
      exists x. split; auto. now apply sorted_first_is_min.
    + unfold length_num. field.
  - rewrite (percentile_at_whole_rank values 100
               (Z.of_nat (List.length values) - 1) Hne); [| |lia].
    + destruct (at_index_in_range (sort_copy values)
                  (Z.of_nat (List.length values) - 1)) as (x & Hx & _).
      { rewrite sort_copy_length. lia. }
      exists x. split; auto. now apply sorted_last_is_max.
    + unfold length_num, Z.sub. rewrite inject_Z_plus, inject_Z_opp. field.
Qed.

(** Witness for C7. *)
Lemma percentile_extremes_witness :
  (exists r, percentile [50; 10; 40; 20; 30] 0 = Some r
             /\ r == min [50; 10; 40; 20; 30])
  /\ (exists r, percentile [50; 10; 40; 20; 30] 100 = Some r
                /\ r == max [50; 10; 40; 20; 30]).
Proof.
  apply (percentile_extremes [50; 10; 40; 20; 30]). discriminate.
Defined.

End MetricsFacts.

(** ** Sort calls of [computeStats] *)

Section SortLogFacts.

Import Metrics.
Open Scope Q_scope.

Lemma logged_percentile_value (values : list Q) (p : Q) :
  SortLog.value (SortLog.percentile values p) = percentile values p.
Proof. destruct values as [|v1 [|v2 rest]]; reflexivity. Qed.

Lemma logged_percentile_sort_calls (values : list Q) (p : Q) :
  SortLog.sort_calls (SortLog.percentile values p) =
    if (List.length values <? 2)%nat then [] else [values].
Proof. destruct values as [|v1 [|v2 rest]]; reflexivity. Qed.

Lemma logged_bind_value {A B} (m : SortLog.Logged A) (f : A -> SortLog.Logged B) :
  SortLog.value (SortLog.bind m f) = SortLog.value (f (SortLog.value m)).
Proof. unfold SortLog.bind, SortLog.value. destruct m as [a l1]. simpl. now destruct (f a). Qed.

Lemma logged_bind_sort_calls {A B} (m : SortLog.Logged A) (f : A -> SortLog.Logged B) :
  SortLog.sort_calls (SortLog.bind m f) =
    SortLog.sort_calls m ++ SortLog.sort_calls (f (SortLog.value m)).
Proof.
  unfold SortLog.bind, SortLog.sort_calls, SortLog.value.
  destruct m as [a l1]. simpl. now destruct (f a).
Qed.

(** C9, as the code has it.  [computeStats] returns the statistics of
    [Metrics.computeStats], and it reaches them through three calls of
    [percentile], each of which sorts its own copy of the input: three
    sorts for an input of two or more samples, none for a shorter one. *)
Theorem computeStats_sorts_once_per_percentile (values : list Q) :
  SortLog.value (SortLog.computeStats values) = computeStats values
  /\ SortLog.sort_calls (SortLog.computeStats values) =
       if (List.length values <? 2)%nat then [] else [values; values; values].
Proof.
  unfold SortLog.computeStats, SortLog.p50, SortLog.p95, SortLog.p99. split.
  - rewrite !logged_bind_value. unfold SortLog.ret, SortLog.value at 1. simpl fst.
    rewrite !logged_percentile_value. reflexivity.
  - rewrite !logged_bind_sort_calls, !logged_percentile_sort_calls.
    destruct (List.length values <? 2)%nat; reflexivity.
Qed.

(** C9 fails as stated: on three samples [computeStats] sorts three
    times, each time the input itself. *)
Lemma computeStats_three_sorts_example :
  SortLog.sort_calls (SortLog.computeStats [30; 10; 20]) =
    [[30; 10; 20]; [30; 10; 20]; [30; 10; 20]]
  /\ List.length (SortLog.sort_calls (SortLog.computeStats [30; 10; 20])) <> 1%nat.
Proof. split; [reflexivity | discriminate]. Qed.

End SortLogFacts.

(** ** Case executor *)

Section RunnerFacts.

Import QueryRunner.
Open Scope list_scope.
Open Scope nat_scope.

Variable performance_now : nat -> Q.
Variable date_iso : nat -> string.
Variable benchCase : BenchmarkCase.
Variable ctx : BenchmarkContext.
Variable opts : QueryRunnerOptions.

Local Abbreviation warmup_loop := (warmup_loop benchCase ctx).
Local Abbreviation timed_loop := (timed_loop performance_now date_iso benchCase ctx opts).
Local Abbreviation run := (runBenchmarkCase performance_now date_iso benchCase ctx opts).
Local Abbreviation pushed_record := (pushed_record performance_now date_iso benchCase opts).
Local Abbreviation settled := (fn benchCase ctx).

(** Warmup never throws, whatever the operation throws, and leaves nothing
    behind but its invocations. *)
Lemma warmup_loop_swallows (n : nat) : forall w,
  warmup_loop n w = (inl tt, mkWorld (fn_calls w + n) (perf_reads w) (date_reads w)).
Proof.
  induction n as [|n IH]; intros w.
  - simpl. unfold ret. destruct w; simpl. now rewrite Nat.add_0_r.
  - simpl. unfold bind at 1. unfold try_catch, bind, await_fn, ret.
    destruct (fn benchCase ctx (fn_calls w)); rewrite IH; simpl;
      do 2 f_equal; lia.
Qed.

(** The [catch] clause throws exactly when the locals cannot be had. *)
Lemma escapes_none (o : BenchmarkCaseResult + thrown) :
  escapes o = None <-> exists locals, locals_after o = inl locals.
Proof.
  unfold escapes, locals_after.
  destruct (try_block o) as [[rows plan] [err|]].
  - destruct (error_text err) as [text|e]; split; eauto; try discriminate.
    intros [locals H]. discriminate.
  - split; eauto.
Qed.

Lemma escapes_some (o : BenchmarkCaseResult + thrown) (e : thrown) :
  escapes o = Some e <-> locals_after o = inr e.
Proof.
  unfold escapes, locals_after.
  destruct (try_block o) as [[rows plan] [err|]].
  - destruct (error_text err) as [text|e']; split; congruence.
  - split; discriminate.
Qed.

Lemma timed_loop_pushes_one (k i : nat) (results : list BenchmarkResult) (w : world)
    (locals : Z * option string * option string) :
  locals_after (settled (fn_calls w)) = inl locals ->
  timed_loop (S k) i results w =
  timed_loop k (S i) (results ++ [pushed_record i w locals]) (after_iteration w).
Proof.
  intros E. simpl. unfold QueryRunner.pushed_record, after_iteration.
  unfold timed_attempt, now, new_date_iso, await_fn.
  unfold bind, ret. simpl. rewrite E. now destruct locals as [[rows plan] err].
Qed.

Lemma timed_loop_aborts_at_once (k i : nat) (results : list BenchmarkResult) (w : world)
    (e : thrown) :
  locals_after (settled (fn_calls w)) = inr e ->
  timed_loop (S k) i results w = (inr e, after_abort w).
Proof.
  intros E. simpl. unfold timed_attempt, now, await_fn, bind. simpl.
  now rewrite E.
Qed.

Lemma after_iterations_fn_calls (k : nat) : forall w,
  fn_calls (after_iterations k w) = fn_calls w + k.
Proof.
  induction k as [|k IH]; intros w; simpl; [lia|]. rewrite IH. simpl. lia.
Qed.

Lemma after_iterations_succ (k : nat) : forall w,
  after_iterations (S k) w = after_iteration (after_iterations k w).
Proof.
  induction k as [|k IH]; intros w; [reflexivity|].
  change (after_iterations (S (S k)) w)
    with (after_iterations (S k) (after_iteration w)).
  now rewrite IH.
Qed.

(** A timed loop that returns has pushed one record per iteration, each
    made of the locals its try/catch left. *)
Lemma timed_loop_returns (k : nat) : forall i results w out w',
  timed_loop k i results w = (inl out, w') ->
  w' = after_iterations k w
  /\ exists pushed,
       out = results ++ pushed
       /\ List.length pushed = k
       /\ map iteration pushed = seq (i + 1) k
       /\ forall j r, nth_error pushed j = Some r ->
            exists locals,
              locals_after (settled (fn_calls w + j)) = inl locals
              /\ r = pushed_record (i + j) (after_iterations j w) locals.
Proof.
  induction k as [|k IH]; intros i results w out w' H.
  - injection H as <- <-. split; [reflexivity|]. exists [].
    rewrite app_nil_r. repeat split. intros [|j] r Hj; discriminate.
  - destruct (locals_after (settled (fn_calls w))) as [locals|e] eqn:E.
    + rewrite (timed_loop_pushes_one k i results w locals E) in H.
      destruct (IH _ _ _ _ _ H) as (-> & pushed & -> & Hlen & Hit & Hnth).
      split; [reflexivity|].
      exists (pushed_record i w locals :: pushed). repeat split.
      * now rewrite <- app_assoc.
      * simpl. now rewrite Hlen.
      * cbn [map seq]. f_equal.
        -- unfold QueryRunner.pushed_record. now destruct locals as [[? ?] ?].
        -- rewrite Hit. f_equal.
      * intros [|j] r Hj.
        -- injection Hj as <-. exists locals. rewrite !Nat.add_0_r. auto.
        -- destruct (Hnth j r Hj) as (l & El & ->). exists l. split.
           ++ rewrite <- El. f_equal. simpl. f_equal. lia.
           ++ f_equal. lia.
    + rewrite (timed_loop_aborts_at_once k i results w e E) in H. discriminate.
Qed.

(** A timed loop none of whose iterations throws out of its [catch]
    returns. *)
Lemma timed_loop_completes (k : nat) : forall i results w,
  (forall j, j < k -> escapes (settled (fn_calls w + j)) = None) ->
  exists out, timed_loop k i results w = (inl out, after_iterations k w).
Proof.
  induction k as [|k IH]; intros i results w H.
  - exists results. reflexivity.
  - assert (E : escapes (settled (fn_calls w)) = None).
    { rewrite <- (Nat.add_0_r (fn_calls w)). apply H. lia. }
    apply escapes_none in E as [locals E].
    rewrite (timed_loop_pushes_one k i results w locals E).
    apply IH. intros j Hj.
    replace (fn_calls (after_iteration w) + j) with (fn_calls w + S j)
      by (simpl; lia).
    apply H. lia.
Qed.

(** The first timed iteration whose [catch] throws ends the loop with
    what it threw. *)
Lemma timed_loop_aborts (j : nat) : forall k i results w e,
  j < k ->
  (forall j', j' < j -> escapes (settled (fn_calls w + j')) = None) ->
  escapes (settled (fn_calls w + j)) = Some e ->
  timed_loop k i results w = (inr e, after_abort (after_iterations j w)).
Proof.
  induction j as [|j IH]; intros k i results w e Hlt Hbefore Hj;
    (destruct k as [|k]; [lia|]).
  - rewrite Nat.add_0_r in Hj. apply escapes_some in Hj.
    now apply timed_loop_aborts_at_once.
  - assert (E : escapes (settled (fn_calls w)) = None).
    { rewrite <- (Nat.add_0_r (fn_calls w)). apply Hbefore. lia. }
    apply escapes_none in E as [locals E].
    rewrite (timed_loop_pushes_one k i results w locals E).
    apply IH; [lia| |].
    + intros j' Hj'.
      replace (fn_calls (after_iteration w) + j') with (fn_calls w + S j')
        by (simpl; lia).
      apply Hbefore. lia.
    + replace (fn_calls (after_iteration w) + j) with (fn_calls w + S j)
        by (simpl; lia).
      exact Hj.
Qed.

Lemma run_unfolds (w : world) :
  run w =
  timed_loop (iterations opts) 0 []
    (mkWorld (fn_calls w + warmupIterations opts) (perf_reads w) (date_reads w)).
Proof.
  unfold runBenchmarkCase, bind. now rewrite warmup_loop_swallows.
Qed.

(** A run none of whose timed iterations throws out of its [catch]
    returns. *)
Lemma run_completes (w : world) :
  (forall j, j < iterations opts ->
     escapes (settled (fn_calls w + warmupIterations opts + j)) = None) ->
  exists results w', run w = (inl results, w').
Proof.
  intros H. rewrite run_unfolds.
  destruct (timed_loop_completes (iterations opts) 0 []
              (mkWorld (fn_calls w + warmupIterations opts)
                 (perf_reads w) (date_reads w)) H) as [out E].
  eauto.
Qed.

(** What a returned run is made of. *)
Lemma run_returns (w : world) (results : list BenchmarkResult) (w' : world) :
  run w = (inl results, w') ->
  List.length results = iterations opts
  /\ map iteration results = seq 1 (iterations opts)
  /\ fn_calls w' = fn_calls w + warmupIterations opts + iterations opts
  /\ forall j r, nth_error results j = Some r ->
       exists locals v,
         locals_after (settled (fn_calls w + warmupIterations opts + j)) = inl locals
         /\ r = pushed_record j v locals.
Proof.
  rewrite run_unfolds. intros H.
  apply timed_loop_returns in H as (-> & pushed & -> & Hlen & Hit & Hnth).
  cbn [app]. repeat split; auto.
  - now rewrite after_iterations_fn_calls.
  - intros j r Hj. destruct (Hnth j r Hj) as (l & El & ->).
    exists l. eexists. split; [exact El|]. reflexivity.
Qed.

Lemma pushed_record_locals (i : nat) (v : world)
    (locals : Z * option string * option string) :
  (rowsReturned (pushed_record i v locals), queryPlan (pushed_record i v locals),
   error (pushed_record i v locals)) = locals.
Proof. now destruct locals as [[rows plan] err]. Qed.



End RunnerFacts.

Section RunnerScenarios.

Import QueryRunner Scenarios.
Open Scope string_scope.
Open Scope list_scope.

(** The scenario of the specification: two warmups, three timed
    iterations, seven rows each time. *)
Example seven_rows_scenario :
  exists results w',
    runBenchmarkCase clock stamp seven_rows amsterdam (options 3 2) fresh
      = (inl results, w')
    /\ map iteration results = [1; 2; 3]%nat
    /\ map rowsReturned results = [7; 7; 7]%Z
    /\ map error results = [None; None; None].
Proof.
  do 2 eexists. split; [vm_compute; reflexivity|].
  repeat split; vm_compute; reflexivity.
Qed.





(** C4 also fails where it asks for a non-empty error: an operation that
    throws [new Error()] on every timed iteration yields records whose
    [error] is the empty string. *)
Lemma empty_message_gives_empty_error :
  exists results w',
    runBenchmarkCase clock stamp silent_failure amsterdam (options 3 1) fresh
      = (inl results, w')
    /\ map error results = [Some ""; Some ""; Some ""]
    /\ map rowsReturned results = [0; 0; 0]%Z.
Proof. do 2 eexists. split; [vm_compute; reflexivity|]. split; vm_compute; reflexivity. Qed.

End RunnerScenarios.

(** ** Workload driver *)

Section WorkloadFacts.

Import QueryRunner Workload.
Open Scope list_scope.
Open Scope nat_scope.

Lemma succeeded_rows_permutation (l1 l2 : list outcome) :
  Permutation l1 l2 -> succeeded_rows l1 = succeeded_rows l2.
Proof.
  unfold succeeded_rows.
  induction 1; simpl; lia.
Qed.

Lemma task_effect_rows (o : outcome) (acc : Z) :
  task_effect o acc = (acc + rows_of o)%Z.
Proof. destruct o; unfold rows_of; simpl; lia. Qed.

(** Admission moves tasks from the queue to the running set and loses none. *)
Lemma start_queued_keeps_tasks (slots : nat) : forall q a q' a',
  start_queued slots q a = (q', a') ->
  Permutation (q ++ a) (q' ++ a')
  /\ (a <> [] -> a' <> [])
  /\ (1 <= slots -> q <> [] -> a' <> []).
Proof.
  induction slots as [|k IH]; intros q a q' a' H; simpl in H.
  - injection H as <- <-. repeat split; auto. lia.
  - destruct q as [|t rest].
    + injection H as <- <-. repeat split; auto.
    + apply IH in H as (P & N1 & _).
      assert (Na : a ++ [t] <> []) by (destruct a; discriminate).
      repeat split; auto.
      eapply Permutation_trans; [|exact P].
      simpl. rewrite app_assoc.
      apply Permutation_trans with ((rest ++ a) ++ [t]).
      * apply Permutation_cons_append.
      * reflexivity.
Qed.

Lemma take_at_in_range {A} (l : list A) : forall k,
  k < List.length l ->
  exists x rest, take_at k l = Some (x, rest) /\ Permutation l (x :: rest).
Proof.
  induction l as [|y l IH]; intros k Hk; simpl in Hk; [lia|].
  destruct k as [|k]; simpl.
  - exists y, l. split; auto.
  - destruct (IH k) as (x & rest & E & P); [lia|]. rewrite E.
    exists x, (y :: rest). split; auto.
    eapply Permutation_trans; [apply perm_skip, P | apply perm_swap].
Qed.

(** With a positive concurrency and a task still pending, a turn settles
    exactly one task and applies its effect. *)
Lemma turn_settles_one (concurrency choice : nat) (st : dispatch) :
  1 <= concurrency ->
  queue st ++ active st <> [] ->
  exists o,
    Permutation (queue st ++ active st)
                (o :: queue (turn concurrency choice st)
                   ++ active (turn concurrency choice st))
    /\ totalRows (turn concurrency choice st) = task_effect o (totalRows st)
    /\ rejection (turn concurrency choice st) = first_rejection (rejection st) o.
Proof.
  intros Hc Hne. unfold turn.
  destruct (start_queued _ (queue st) (active st)) as [q a] eqn:Ea.
  apply start_queued_keeps_tasks in Ea as (P & N1 & N2).
  assert (Na : a <> []).
  { destruct (active st) as [|x l] eqn:El.
    - apply N2; [simpl; lia|]. rewrite app_nil_r in Hne. exact Hne.
    - apply N1. discriminate. }
  destruct (take_at_in_range a (choice mod List.length a)) as (o & a' & E & Pa).
  { apply Nat.mod_upper_bound. destruct a; [congruence | discriminate]. }
  rewrite E. simpl. exists o. repeat split.
  eapply Permutation_trans; [exact P|].
  apply Permutation_trans with (q ++ o :: a').
  - apply Permutation_app_head, Pa.
  - symmetry. apply Permutation_middle.
Qed.

(** After as many turns as there are pending tasks, nothing is pending,
    the accumulator holds the rows of every task that resolved, and the
    rejection is the first one met, if any. *)
Lemma run_turns_drains (concurrency : nat) (Hc : 1 <= concurrency) (fuel : nat) :
  forall sched st,
    List.length (queue st ++ active st) = fuel ->
    let final := run_turns fuel concurrency sched st in
    queue final = [] /\ active final = []
    /\ totalRows final = (totalRows st + succeeded_rows (queue st ++ active st))%Z
    /\ match rejection st with
       | Some e => rejection final = Some e
       | None =>
           (rejection final = None
            /\ forallb (fun o => negb (fails o)) (queue st ++ active st) = true)
           \/ (exists e, rejection final = Some e
                         /\ In (Fails e) (queue st ++ active st))
       end.
Proof.
  induction fuel as [|fuel IH]; intros sched st Hlen; cbn zeta.
  - simpl. apply length_zero_iff_nil in Hlen.
    apply app_eq_nil in Hlen as [Hq Ha]. rewrite Hq, Ha. simpl.
    repeat split; auto; [lia|]. destruct (rejection st); auto.
  - simpl run_turns.
    destruct (turn_settles_one concurrency (hd 0 sched) st Hc) as (o & P & Et & Er).
    { intros E. rewrite E in Hlen. discriminate. }
    set (st1 := turn concurrency (hd 0 sched) st) in *.
    assert (Hlen1 : List.length (queue st1 ++ active st1) = fuel).
    { apply Permutation_length in P. simpl in P. lia. }
    destruct (IH (tl sched) st1 Hlen1) as (Fq & Fa & Ft & Fr).
    repeat split; auto.
    + rewrite Ft, Et, task_effect_rows, (succeeded_rows_permutation _ _ P).
      unfold succeeded_rows at 2. simpl. fold (succeeded_rows (queue st1 ++ active st1)).
      lia.
    + rewrite Er in Fr. destruct (rejection st) as [e|]; simpl in Fr; [exact Fr|].
      destruct o as [n|e]; simpl in Fr.
      * destruct Fr as [[Fn Fall]|(e & Fe & Fin)].
        -- left. split; auto.
           rewrite forallb_forall in *. intros x Hx.
           apply (Permutation_in _ P) in Hx. destruct Hx as [<-|Hx]; auto.
        -- right. exists e. split; auto.
           apply (Permutation_in _ (Permutation_sym P)). right. exact Fin.
      * right. exists e. split; auto.
        apply (Permutation_in _ (Permutation_sym P)). left. reflexivity.
Qed.

Lemma settle_all_drains (concurrency : nat) (sched : list nat) (tasks : list outcome) :
  1 <= concurrency ->
  let final := settle_all concurrency sched tasks in
  all_settle final tasks
  /\ ((rejection final = None
       /\ forallb (fun o => negb (fails o)) tasks = true)
      \/ (exists e, rejection final = Some e /\ In (Fails e) tasks)).
Proof.
  intros Hc final.
  pose proof (run_turns_drains concurrency Hc (List.length tasks) sched
                (mkDispatch tasks [] 0 None)) as D.
  simpl in D. rewrite app_nil_r in D.
  destruct (D eq_refl) as (Dq & Da & Dt & Dr).
  split; [|exact Dr]. repeat split; auto.
Qed.

Lemma fails_somewhere (tasks : list outcome) :
  existsb fails tasks = true ->
  forallb (fun o => negb (fails o)) tasks = false.
Proof.
  induction tasks as [|o l IH]; simpl; [discriminate|].
  destruct (fails o); simpl; auto.
Qed.

Lemma fails_nowhere (tasks : list outcome) (e : thrown) :
  forallb (fun o => negb (fails o)) tasks = true -> ~ In (Fails e) tasks.
Proof.
  rewrite forallb_forall. intros H Hin. apply H in Hin. discriminate.
Qed.

Lemma limited_sum_outcome (concurrency : nat) (sched : list nat) (tasks : list outcome) :
  1 <= concurrency ->
  sum_or_rejection (limited_sum concurrency sched tasks) tasks.
Proof.
  intros Hc. unfold limited_sum.
  destruct (concurrency =? 0) eqn:E; [apply Nat.eqb_eq in E; lia|].
  destruct (settle_all_drains concurrency sched tasks Hc) as ((_ & _ & Ht) & Hr).
  split.
  - intros Hok. destruct Hr as [[-> _]|(e & _ & Hin)].
    + now rewrite Ht.
    + exfalso. eapply fails_nowhere; eauto.
  - intros Hbad. destruct Hr as [[_ Hok]|(e & -> & Hin)].
    + apply fails_somewhere in Hbad. congruence.
    + exists e. auto.
Qed.

(** C2, as the code has it.  With a positive concurrency and under every
    schedule, the uniform and the mixed driver return the sum of all row
    counts when every dispatched operation succeeds.  When an operation
    fails, the driver call itself fails, with the reason of one of the
    failing operations, and returns no count.  In both cases no sibling is
    cancelled: every operation settles and the accumulator ends with the
    rows of those that succeeded. *)
Theorem workload_driver_sums_or_rejects
    (random : nat -> Q) (ctx : BenchmarkContext) (total : nat) (writeRatio : Q)
    (concurrency : nat) (sched : list nat) :
  1 <= concurrency ->
  let uniform := uniform_tasks (pgPool ctx) total in
  let mixed := mixed_tasks ctx (draw_operations random total writeRatio) in
  sum_or_rejection (runConcurrentPostgis ctx total concurrency sched) uniform
  /\ all_settle (settle_all concurrency sched uniform) uniform
  /\ sum_or_rejection
       (mixedWorkload random ctx total writeRatio concurrency sched) mixed
  /\ all_settle (settle_all concurrency sched mixed) mixed.
Proof.
  intros Hc uniform mixed. repeat split.
  - now apply limited_sum_outcome.
  - now apply limited_sum_outcome.
  - apply settle_all_drains, Hc.
  - apply settle_all_drains, Hc.
  - apply settle_all_drains, Hc.
  - now apply limited_sum_outcome.
  - now apply limited_sum_outcome.
  - apply settle_all_drains, Hc.
  - apply settle_all_drains, Hc.
  - apply settle_all_drains, Hc.
Qed.

Lemma constant_choice (f : nat -> operation) (op : operation) (n : nat) :
  (forall i, f i = op) -> forall start, map f (seq start n) = repeat op n.
Proof.
  intros H. induction n as [|n IH]; intros start; simpl; [reflexivity|].
  now rewrite H, IH.
Qed.

Lemma mixed_tasks_constant (ctx : BenchmarkContext) (op : operation) (n : nat) :
  mixed_tasks ctx (repeat op n) = map (fun i => issue ctx i op) (indices n).
Proof.
  unfold mixed_tasks, indices. rewrite repeat_length.
  generalize 0 as start. induction n as [|n IH]; intros start; simpl; [reflexivity|].
  now rewrite IH.
Qed.

Lemma issue_agrees (ctx ctx' : BenchmarkContext) (op : operation) :
  database ctx' = database ctx ->
  (forall i, pgPool ctx' i op = pgPool ctx i op
             /\ mssqlPool ctx' i op = mssqlPool ctx i op) ->
  forall i, issue ctx' i op = issue ctx i op.
Proof.
  intros Hd Hp i. unfold issue. rewrite Hd.
  destruct (database ctx); apply Hp.
Qed.

(** C8. Whatever values in [0, 1) [Math.random] returns, with a write ratio
    of 0 every one of the [totalOps] slots is a read and the driver
    dispatches [totalOps] tasks that each send the read query to the pool
    of the context's database; what the pools would do with a write does
    not bear on the result.  With a write ratio of 1 every slot is a write
    and every task sends the write query; what the pools would do with a
    read does not bear on the result. *)
Theorem write_ratio_boundaries (random : nat -> Q) (ctx : BenchmarkContext)
    (totalOps concurrency : nat) (sched : list nat) :
  (forall i, (0 <= random i)%Q /\ (random i < 1)%Q) ->
  let pool := match database ctx with
              | postgis => pgPool ctx
              | mssql => mssqlPool ctx
              end in
  (draw_operations random totalOps 0 = repeat read totalOps
   /\ mixed_tasks ctx (draw_operations random totalOps 0)
      = map (fun i => pool i read) (indices totalOps)
   /\ mixedWorkload random ctx totalOps 0 concurrency sched
      = limited_sum concurrency sched (map (fun i => pool i read) (indices totalOps))
   /\ forall ctx',
        database ctx' = database ctx ->
        (forall i, pgPool ctx' i read = pgPool ctx i read
                   /\ mssqlPool ctx' i read = mssqlPool ctx i read) ->
        mixedWorkload random ctx' totalOps 0 concurrency sched
        = mixedWorkload random ctx totalOps 0 concurrency sched)
  /\ (draw_operations random totalOps 1 = repeat write totalOps
      /\ mixed_tasks ctx (draw_operations random totalOps 1)
         = map (fun i => pool i write) (indices totalOps)
      /\ mixedWorkload random ctx totalOps 1 concurrency sched
         = limited_sum concurrency sched (map (fun i => pool i write) (indices totalOps))
      /\ forall ctx',
           database ctx' = database ctx ->
           (forall i, pgPool ctx' i write = pgPool ctx i write
                      /\ mssqlPool ctx' i write = mssqlPool ctx i write) ->
           mixedWorkload random ctx' totalOps 1 concurrency sched
           = mixedWorkload random ctx totalOps 1 concurrency sched).
Proof.
  intros Hr pool.
  assert (R : draw_operations random totalOps 0 = repeat read totalOps).
  { apply constant_choice. intros i. unfold choose_operation, lt_num.
    destruct (Hr i) as [H0 _]. apply Qle_bool_iff in H0. now rewrite H0. }
  assert (W : draw_operations random totalOps 1 = repeat write totalOps).
  { apply constant_choice. intros i. unfold choose_operation, lt_num.
    destruct (Hr i) as [_ H1].
    destruct (Qle_bool 1 (random i)) eqn:E; [|reflexivity].
    apply Qle_bool_iff in E. apply Qlt_not_le in H1. contradiction. }
  assert (T : forall op c,
            mixed_tasks c (repeat op totalOps)
            = map (fun i => issue c i op) (indices totalOps))
    by (intros op c; apply mixed_tasks_constant).
  assert (P : forall op, map (fun i => issue ctx i op) (indices totalOps)
                         = map (fun i => pool i op) (indices totalOps)).
  { intros op. apply map_ext. intros i. unfold issue, pool.
    now destruct (database ctx). }
  split; (split; [assumption|]); unfold mixedWorkload; rewrite ?R, ?W, !T, !P;
    (split; [reflexivity|]); (split; [reflexivity|]);
    intros ctx' Hd Hp; rewrite T, <- P; f_equal; apply map_ext; intros i;
    now apply issue_agrees.
Qed.

End WorkloadFacts.

Section WorkloadScenarios.

Import QueryRunner Workload Scenarios.
Open Scope list_scope.

(** Witness for C8. *)
Lemma write_ratio_boundaries_witness :
  (draw_operations alternating 4 0 = repeat read 4
   /\ mixed_tasks telling (draw_operations alternating 4 0)
      = [Rows 5; Rows 5; Rows 5; Rows 5]
   /\ mixedWorkload alternating telling 4 0 2 [1; 0; 0]%nat = inl 20%Z)
  /\ (draw_operations alternating 4 1 = repeat write 4
      /\ mixed_tasks telling (draw_operations alternating 4 1)
         = [Rows 1; Rows 1; Rows 1; Rows 1]
      /\ mixedWorkload alternating telling 4 1 2 [1; 0; 0]%nat = inl 4%Z).
Proof.
  destruct (write_ratio_boundaries alternating telling 4 2 [1; 0; 0]%nat)
    as [(R1 & R2 & R3 & _) (W1 & W2 & W3 & _)].
  - intros i. unfold alternating. destruct (Nat.even i); split; vm_compute;
      (discriminate || reflexivity).
  - split; (split; [assumption|]).
    + rewrite R2, R3. split; reflexivity.
    + rewrite W2, W3. split; reflexivity.
Defined.

(** Witness for C2: three operations, two at a time; with a steady pool
    the driver returns nine rows, with a flaky one it rejects. *)
Lemma workload_driver_sums_or_rejects_witness :
  runConcurrentPostgis steady 3 2 [1; 0; 0]%nat = inl 9%Z
  /\ (exists e, runConcurrentPostgis flaky 3 2 [1; 0; 0]%nat = inr e
                /\ In (Fails e) (uniform_tasks (pgPool flaky) 3)).
Proof.
  split.
  - apply (proj1 (proj1 (workload_driver_sums_or_rejects
                           alternating steady 3 (1 # 2) 2 [1; 0; 0]%nat
                           (le_S _ _ (le_n 1))))).
    reflexivity.
  - apply (proj2 (proj1 (workload_driver_sums_or_rejects
                           alternating flaky 3 (1 # 2) 2 [1; 0; 0]%nat
                           (le_S _ _ (le_n 1))))).
    reflexivity.
Defined.

(** C2 fails as stated: one failing operation among three makes both
    drivers reject instead of returning the six rows of the two operations
    that succeeded, although those two did run to completion. *)
Lemma one_failure_rejects_the_driver :
  succeeded_rows (uniform_tasks (pgPool flaky) 3) = 6%Z
  /\ runConcurrentPostgis flaky 3 2 [1; 0; 0]%nat = inr terminated
  /\ runConcurrentPostgis flaky 3 2 [1; 0; 0]%nat <> inl 6%Z
  /\ mixedWorkload alternating flaky 3 (1 # 2) 2 [1; 0; 0]%nat = inr terminated
  /\ mixedWorkload alternating flaky 3 (1 # 2) 2 [1; 0; 0]%nat <> inl 6%Z
  /\ totalRows (settle_all 2 [1; 0; 0]%nat (uniform_tasks (pgPool flaky) 3)) = 6%Z.
Proof. repeat split; try reflexivity; discriminate. Qed.

End WorkloadScenarios.

(** ** Resource sampler *)

Section CollectorFacts.

Import DockerStats.
Open Scope list_scope.
Open Scope nat_scope.

Variable run_id : string.
Variable containers : list string.
Variable probe : string -> nat -> option reading.
Variable date_iso : nat -> string.

Local Abbreviation poll := (poll run_id containers probe date_iso).
Local Abbreviation start := (start run_id containers probe date_iso).
Local Abbreviation interval_elapses := (interval_elapses run_id containers probe date_iso).
Local Abbreviation poll_container := (poll_container run_id probe date_iso).

(** A poll appends one snapshot for each container that answers, in the
    order of the configured list, and nothing for the others. *)
Lemma poll_appends (tick : nat) (cs : list string) : forall table,
  exists new,
    fold_left (poll_container tick) cs table = table ++ new
    /\ map container new = filter (reachable probe tick) cs.
Proof.
  induction cs as [|c cs IH]; intros table; simpl.
  - exists []. now rewrite app_nil_r.
  - unfold DockerStats.poll_container at 2, reachable at 1.
    destruct (probe c tick) as [r|].
    + destruct (IH (table ++
        [ {| runId := run_id; container := c;
             timestamp := date_iso (List.length table);
             cpuPercent := rd_cpuPercent r;
             memoryUsageMb := rd_memoryUsageMb r;
             memoryLimitMb := rd_memoryLimitMb r;
             networkRxBytes := rd_networkRxBytes r;
             networkTxBytes := rd_networkTxBytes r |} ])) as (new & E & M).
      eexists (_ :: new). rewrite E, <- app_assoc. split; [reflexivity|].
      simpl. now rewrite M.
    + apply IH.
Qed.

Lemma stop_twice (s : collector) : stop (stop s) = stop s.
Proof. unfold stop. destruct (timer s) eqn:E; simpl; [reflexivity | now rewrite E]. Qed.

(** C6, as the code has it.  On a collector with no timer armed, [stop] is
    a no-op; [stop] is idempotent on every collector; [start] makes one
    poll at once; and [start] followed by [stop] leaves no timer armed, so
    an elapsed interval triggers no poll, while the table has gained
    exactly one snapshot per answering container. *)
Theorem collector_start_then_stop (st : collector) :
  timer st = None -> armed st = [] ->
  stop st = st
  /\ (forall s, stop (stop s) = stop s)
  /\ polls (start st) = S (polls st)
  /\ timer (stop (start st)) = None
  /\ armed (stop (start st)) = []
  /\ interval_elapses (stop (start st)) = stop (start st)
  /\ exists new,
       snapshots (stop (start st)) = snapshots st ++ new
       /\ map container new = filter (reachable probe (polls st)) containers.
Proof.
  intros Ht Ha.
  assert (A : armed (stop (start st)) = []).
  { unfold stop, DockerStats.start, setInterval. simpl.
    rewrite Ha, Nat.eqb_refl. reflexivity. }
  repeat split.
  - unfold stop. now rewrite Ht.
  - apply stop_twice.
  - exact A.
  - unfold DockerStats.interval_elapses. now rewrite A.
  - unfold stop, DockerStats.start, setInterval, DockerStats.poll. simpl.
    apply poll_appends.
Qed.

End CollectorFacts.

Section CollectorScenarios.

Import DockerStats Scenarios.
Open Scope string_scope.
Open Scope list_scope.

Local Abbreviation start := (start "run-1" monitored answering stamp).
Local Abbreviation interval_elapses := (interval_elapses "run-1" monitored answering stamp).

(** Witness for C6: a fresh collector for two answering containers. *)
Lemma collector_start_then_stop_witness :
  stop idle = idle
  /\ (forall s, stop (stop s) = stop s)
  /\ polls (start idle) = 1%nat
  /\ timer (stop (start idle)) = None
  /\ armed (stop (start idle)) = []
  /\ interval_elapses (stop (start idle)) = stop (start idle)
  /\ exists new,
       snapshots (stop (start idle)) = [] ++ new
       /\ map container new = filter (reachable answering 0) monitored.
Proof.
  apply (collector_start_then_stop "run-1" monitored answering stamp idle);
    reflexivity.
Defined.

(** C6 fails as stated where it calls [start] idempotent: a second [start]
    polls again and arms a second timer, [stop] disarms only the newer one,
    and the older one keeps polling. *)
Lemma second_start_leaks_a_timer :
  List.length (snapshots (start idle)) = 2%nat
  /\ List.length (snapshots (start (start idle))) = 4%nat
  /\ armed (stop (start (start idle))) = [0%nat]
  /\ polls (stop (start (start idle))) = 2%nat
  /\ polls (interval_elapses (stop (start (start idle)))) = 3%nat
  /\ stop (start (start idle)) <> stop (start idle).
Proof. repeat split; try reflexivity. discriminate. Qed.

End CollectorScenarios.

(** ** Results store *)

Section ResultsDbFacts.

Import ResultsDb.
Open Scope string_scope.
Open Scope list_scope.

Lemma group_eqb_eq (g h : group) : group_eqb g h = true <-> g = h.
Proof.
  destruct g as [[[s1 b1] d1] c1], h as [[[s2 b2] d2] c2]. simpl.
  rewrite !andb_true_iff, !String.eqb_eq, Z.eqb_eq.
  split; [intros [[[-> ->] ->] ->]; reflexivity | intros E; injection E; auto].
Qed.

Lemma seen_iff (g : group) (seen : list group) :
  existsb (group_eqb g) seen = true <-> In g seen.
Proof.
  rewrite existsb_exists. split.
  - intros (h & Hin & E). apply group_eqb_eq in E. now subst.
  - intros Hin. exists g. split; auto. now apply group_eqb_eq.
Qed.

Lemma group_eq_dec (g h : group) : g = h \/ g <> h.
Proof.
  destruct (group_eqb g h) eqn:E.
  - left. now apply group_eqb_eq.
  - right. rewrite <- group_eqb_eq. congruence.
Qed.

(** [SELECT DISTINCT] keeps every value that occurs, once. *)
Lemma distinct_spec (l : list group) : forall seen,
  (forall g, In g (distinct seen l) <-> In g l /\ ~ In g seen)
  /\ NoDup (distinct seen l).
Proof.
  induction l as [|g l IH]; intros seen; simpl.
  - split; [intros g; tauto | constructor].
  - destruct (existsb (group_eqb g) seen) eqn:E.
    + apply seen_iff in E. destruct (IH seen) as [I N]. split; auto.
      intros h. rewrite I. split; [tauto|].
      intros [[<-|H] Hn]; tauto.
    + assert (Hn : ~ In g seen) by (rewrite <- seen_iff; congruence).
      destruct (IH (g :: seen)) as [I N]. split.
      * intros h. simpl. rewrite I. simpl. split.
        -- intros [<-|[H1 H2]]; tauto.
        -- intros [H1 H2]. destruct (group_eq_dec g h) as [D|D]; tauto.
      * constructor; auto. rewrite I. simpl. tauto.
Qed.

Lemma getStatsForRun_groups (d : Database) (runId : string) :
  map group_of_stats (getStatsForRun d runId) = select_groups d runId.
Proof.
  unfold getStatsForRun. rewrite map_map.
  rewrite <- (map_id (select_groups d runId)) at 2.
  apply map_ext. now intros [[[s b] db] sc].
Qed.

Lemma select_times_all_failed (d : Database) (runId : string) (g : group) :
  (forall r, In r (benchmark_results d) -> run_id r = runId -> group_of r = g ->
             error r <> None) ->
  select_times d runId g = [].
Proof.
  intros H. unfold select_times.
  induction (benchmark_results d) as [|r l IH]; [reflexivity|].
  cbn [filter].
  destruct ((run_id r =? runId) && group_eqb (group_of r) g && is_null (error r))
    eqn:E.
  - exfalso. apply andb_true_iff in E as [E E3].
    apply andb_true_iff in E as [E1 E2].
    apply String.eqb_eq in E1. apply group_eqb_eq in E2.
    apply (H r (or_introl eq_refl) E1 E2).
    destruct (error r); [discriminate | reflexivity].
  - apply IH. intros r' Hin. apply H. now right.
Qed.

(** C1, as the code has it.  [getStatsForRun] emits exactly one row for
    every {suite, benchmark, database, scale} group that has a measurement
    record in the run, with or without an error.  The row holds the
    statistics of the group's error-free query times; for a group whose
    records all carry errors these are the statistics of no samples: count
    0 and every other field 0. *)
Theorem getStatsForRun_emits_every_group (d : Database) (runId : string) :
  (forall g, In g (map group_of_stats (getStatsForRun d runId)) <->
             exists r, In r (benchmark_results d)
                       /\ run_id r = runId /\ group_of r = g)
  /\ NoDup (map group_of_stats (getStatsForRun d runId))
  /\ (forall row, In row (getStatsForRun d runId) ->
        bs_stats row =
        Metrics.computeStats (select_times d runId (group_of_stats row)))
  /\ (forall row, In row (getStatsForRun d runId) ->
        (forall r, In r (benchmark_results d) -> run_id r = runId ->
                   group_of r = group_of_stats row -> error r <> None) ->
        bs_stats row =
        Metrics.mkStats 0 0 0 0 (Metrics.Rational 0) (Some 0%Q) (Some 0%Q) (Some 0%Q)).
Proof.
  assert (S : forall row, In row (getStatsForRun d runId) ->
                bs_stats row =
                Metrics.computeStats (select_times d runId (group_of_stats row))).
  { intros row Hin. unfold getStatsForRun in Hin.
    apply in_map_iff in Hin as ([[[s b] db] sc] & <- & _). reflexivity. }
  repeat split.
  - rewrite getStatsForRun_groups. unfold select_groups.
    intros Hin. apply (proj1 (distinct_spec _ [])) in Hin as [Hin _].
    apply in_map_iff in Hin as (r & Hg & Hr).
    apply filter_In in Hr as [Hr Hrun]. apply String.eqb_eq in Hrun.
    exists r. auto.
  - intros (r & Hr & Hrun & Hg).
    rewrite getStatsForRun_groups. unfold select_groups.
    apply (proj1 (distinct_spec _ [])). split; [|simpl; tauto].
    apply in_map_iff. exists r. split; auto.
    apply filter_In. split; auto. now apply String.eqb_eq.
  - rewrite getStatsForRun_groups. apply distinct_spec.
  - exact S.
  - intros row Hin Hfail. rewrite (S row Hin).
    now rewrite (select_times_all_failed d runId _ Hfail).
Qed.

Lemma update_leaves_other_runs (now runId : string) (rows : list run_row) :
  (forall r, In r rows -> runs_run_id r <> runId) ->
  map (update_finished_at now runId) rows = rows /\ changes runId rows = 0%nat.
Proof.
  unfold changes.
  induction rows as [|r rows IH]; intros H; simpl; [auto|].
  assert (E : (runs_run_id r =? runId) = false).
  { apply String.eqb_neq. apply H. simpl. auto. }
  unfold update_finished_at at 1. rewrite E.
  destruct IH as [IH1 IH2]; [intros; apply H; simpl; auto|].
  now rewrite IH1, IH2.
Qed.

(** C10. [finishRun] on a run id that has no run record completes without
    an error; its update matches no row and the database, and so every run
    record in it, is what it was before. *)
Theorem finishRun_unknown_run (now : string) (d : Database) (runId : string) :
  (forall r, In r (runs d) -> runs_run_id r <> runId) ->
  finishRun now d runId = inl (d, 0%nat).
Proof.
  intros H. unfold finishRun.
  destruct (update_leaves_other_runs now runId (runs d) H) as [-> ->].
  now destruct d.
Qed.

End ResultsDbFacts.

Section ResultsDbScenarios.

Import ResultsDb Scenarios.
Open Scope string_scope.
Open Scope list_scope.

(** Witness for C10: finishing a run that was never recorded. *)
Lemma finishRun_unknown_run_witness :
  finishRun "2024-01-01T00:05:00.000Z" only_failures "run-2"
    = inl (only_failures, 0%nat).
Proof.
  apply finishRun_unknown_run.
  intros r [<-|[]]. discriminate.
Defined.

(** Witness for C1: the group of a failed measurement is among the rows,
    with the statistics of no samples. *)
Lemma getStatsForRun_emits_every_group_witness :
  In ("bbox", "bbox-amsterdam", "postgis", 5000%Z)
     (map group_of_stats (getStatsForRun only_failures "run-1"))
  /\ forall row, In row (getStatsForRun only_failures "run-1") ->
       bs_stats row =
       Metrics.mkStats 0 0 0 0 (Metrics.Rational 0) (Some 0%Q) (Some 0%Q) (Some 0%Q).
Proof.
  destruct (getStatsForRun_emits_every_group only_failures "run-1")
    as (Groups & _ & _ & Zeros).
  split.
  - apply Groups. exists failed_measurement. repeat split. now left.
  - intros row Hin. apply Zeros; [exact Hin|].
    intros r [<-|[]] _ _. discriminate.
Defined.

(** C1 fails as stated: a run whose only measurement failed still gets a
    row for that measurement's group, a row of zeros. *)
Lemma all_failed_group_is_emitted :
  getStatsForRun only_failures "run-1" =
    [ {| bs_suite := "bbox";
         bs_benchmark := "bbox-amsterdam";
         bs_database := "postgis";
         bs_scale := 5000;
         bs_stats := Metrics.mkStats 0 0 0 0 (Metrics.Rational 0)
                       (Some 0%Q) (Some 0%Q) (Some 0%Q) |} ]
  /\ Forall (fun r => error r <> None) (benchmark_results only_failures).
Proof.
  split; [reflexivity|]. repeat constructor. discriminate.
Qed.

End ResultsDbScenarios.

(* ================================================================== *)
(** * Further properties *)
(* ================================================================== *)

(** ** Statistics engine: order and bounds *)

Section MetricsOrderFacts.

Import Metrics.
Open Scope Q_scope.

Lemma at_index_nth (arr : list Q) (i : Z) (x : Q) :
  at_index arr i = Some x ->
  (0 <= i)%Z /\ nth_error arr (Z.to_nat i) = Some x.
Proof.
  unfold at_index. destruct (i <? 0)%Z eqn:E; [discriminate|].
  apply Z.ltb_ge in E. auto.
Qed.

Lemma ceiling_le_floor_succ (x : Q) : (Qceiling x <= Qfloor x + 1)%Z.
Proof.
  pose proof (Qceiling_lt x) as C. pose proof (Qlt_floor x) as F.
  assert (H : inject_Z (Qceiling x - 1) < inject_Z (Qfloor x + 1))
    by (eapply Qlt_trans; eauto).
  rewrite <- Zlt_Qlt in H. lia.
Qed.

Lemma fraction_bounds (x : Q) :
  0 <= x - inject_Z (Qfloor x) /\ x - inject_Z (Qfloor x) <= 1.
Proof.
  pose proof (Qfloor_le x) as F. pose proof (Qlt_floor x) as L.
  rewrite inject_Z_plus in L. split; [lra|].
  apply Qlt_le_weak. change (inject_Z 1) with 1 in L. lra.
Qed.

(** Reading a rank off a sorted array: the value lies between the two
    neighbouring elements. *)
Lemma rank_read (s : list Q) (idx : Q) :
  StronglySorted Qle s ->
  (0 <= Qfloor idx)%Z -> (Qceiling idx < Z.of_nat (List.length s))%Z ->
  exists slo shi r,
    nth_error s (Z.to_nat (Qfloor idx)) = Some slo
    /\ nth_error s (Z.to_nat (Qceiling idx)) = Some shi
    /\ (if (Qfloor idx =? Qceiling idx)%Z then at_index s (Qfloor idx)
        else interpolate idx (Qfloor idx) (at_index s (Qfloor idx))
               (at_index s (Qceiling idx))) = Some r
    /\ r == slo + (idx - inject_Z (Qfloor idx)) * (shi - slo)
    /\ slo <= r /\ r <= shi.
Proof.
  intros S H0 H1.
  assert (Hlh : (Qfloor idx <= Qceiling idx)%Z).
  { rewrite Zle_Qle. apply Qle_floor_ceiling. }
  destruct (at_index_in_range s (Qfloor idx)) as (slo & Hlo & _); [lia|].
  destruct (at_index_in_range s (Qceiling idx)) as (shi & Hhi & _); [lia|].
  destruct (at_index_nth _ _ _ Hlo) as [_ Nlo].
  destruct (at_index_nth _ _ _ Hhi) as [_ Nhi].
  assert (Hs : slo <= shi).
  { apply (sorted_nth_le s S (Z.to_nat (Qfloor idx)) (Z.to_nat (Qceiling idx)));
      auto. lia. }
  destruct (fraction_bounds idx) as [F0 F1].
  set (f := idx - inject_Z (Qfloor idx)) in *.
  assert (B0 : 0 <= f * (shi - slo)) by (apply Qmult_le_0_compat; lra).
  assert (B1 : f * (shi - slo) <= 1 * (shi - slo))
    by (apply Qmult_le_compat_r; lra).
  exists slo, shi. rewrite Hlo, Hhi.
  destruct (Qfloor idx =? Qceiling idx)%Z eqn:E.
  - apply Z.eqb_eq in E. exists slo.
    assert (shi = slo) by (rewrite <- E in Nhi; congruence). subst shi.
    repeat split; auto; try lra; unfold f; ring.
  - exists (slo + f * (shi - slo)). simpl.
    repeat split; auto; try lra; reflexivity.
Qed.

(** A higher rank never reads a lower value. *)
Lemma rank_read_monotone (s : list Q) (i1 i2 r1 r2 : Q) :
  StronglySorted Qle s ->
  (0 <= Qfloor i1)%Z -> (Qceiling i2 < Z.of_nat (List.length s))%Z ->
  i1 <= i2 ->
  (if (Qfloor i1 =? Qceiling i1)%Z then at_index s (Qfloor i1)
   else interpolate i1 (Qfloor i1) (at_index s (Qfloor i1))
          (at_index s (Qceiling i1))) = Some r1 ->
  (if (Qfloor i2 =? Qceiling i2)%Z then at_index s (Qfloor i2)
   else interpolate i2 (Qfloor i2) (at_index s (Qfloor i2))
          (at_index s (Qceiling i2))) = Some r2 ->
  r1 <= r2.
Proof.
  intros S H0 H1 Hi E1 E2.
  pose proof (Qfloor_resp_le _ _ Hi) as Fm.
  pose proof (Qceiling_resp_le _ _ Hi) as Cm.
  assert (L1 : (Qfloor i1 <= Qceiling i1)%Z)
    by (rewrite Zle_Qle; apply Qle_floor_ceiling).
  assert (L2 : (Qfloor i2 <= Qceiling i2)%Z)
    by (rewrite Zle_Qle; apply Qle_floor_ceiling).
  destruct (rank_read s i1 S) as (a1 & b1 & x1 & Na1 & Nb1 & X1 & Q1 & A1 & B1);
    [lia | lia |].
  destruct (rank_read s i2 S) as (a2 & b2 & x2 & Na2 & Nb2 & X2 & Q2 & A2 & B2);
    [lia | lia |].
  rewrite E1 in X1. rewrite E2 in X2.
  injection X1 as <-. injection X2 as <-.
  pose proof (ceiling_le_floor_succ i1) as C1.
  destruct (Z.eq_dec (Qfloor i1) (Qfloor i2)) as [Ef|Nf].
  - (* both ranks in the same gap *)
    destruct (Z.eq_dec (Qceiling i1) (Qfloor i1)) as [Ec|Nc].
    + assert (a1 = a2) by congruence. subst a2.
      rewrite Ec in Nb1. assert (b1 = a1) by congruence. subst b1.
      lra.
    + assert (Ec1 : Qceiling i1 = (Qfloor i1 + 1)%Z) by lia.
      assert (Ec2 : Qceiling i2 = (Qfloor i1 + 1)%Z).
      { pose proof (ceiling_le_floor_succ i2). lia. }
      rewrite <- Ef in Na2. rewrite Ec2 in Nb2. rewrite Ec1 in Nb1.
      assert (a2 = a1) by congruence. assert (b2 = b1) by congruence.
      subst a2 b2. rewrite Q1, Q2, <- Ef.
      assert (Hs : 0 <= b1 - a1) by lra.
      assert (Hf : i1 - inject_Z (Qfloor i1) <= i2 - inject_Z (Qfloor i1)) by lra.
      pose proof (Qmult_le_compat_r _ _ _ Hf Hs). lra.
  - (* the higher rank lies in a later gap *)
    assert (Hb : b1 <= a2).
    { apply (sorted_nth_le s S (Z.to_nat (Qceiling i1)) (Z.to_nat (Qfloor i2)));
        auto. lia. }
    lra.
Qed.

Lemma min_is_lower_bound (values : list Q) (x : Q) :
  In x values -> min values <= x.
Proof.
  destruct values as [|v rest]; [intros []|]. intros Hin.
  apply (proj2 (fold_min_spec rest v)). exact Hin.
Qed.

Lemma max_is_upper_bound (values : list Q) (x : Q) :
  In x values -> x <= max values.
Proof.
  destruct values as [|v rest]; [intros []|]. intros Hin.
  apply (proj2 (fold_max_spec rest v)). exact Hin.
Qed.

Lemma sorted_member (values : list Q) (k : nat) (x : Q) :
  nth_error (sort_copy values) k = Some x -> In x values.
Proof.
  intros H. apply (Permutation_in _ (Permutation_sym (sort_copy_permutation values))).
  eapply nth_error_In; eauto.
Qed.

Lemma rank_of_percent_monotone (n : nat) (p q : Q) :
  (1 <= n)%nat -> p <= q ->
  (p / 100) * (inject_Z (Z.of_nat n) - 1) <= (q / 100) * (inject_Z (Z.of_nat n) - 1).
Proof.
  intros Hn Hpq. apply Qmult_le_compat_r.
  - apply Qmult_le_compat_r; [exact Hpq | discriminate].
  - assert (H : inject_Z 1 <= inject_Z (Z.of_nat n)) by (rewrite <- Zle_Qle; lia).
    change (inject_Z 1) with 1 in H. lra.
Qed.

(** X1. A percentile of a non-empty sample sequence, for [p] from 0 to 100,
    is a number between the smallest and the largest sample. *)
Theorem percentile_between_min_and_max (values : list Q) (p : Q) :
  values <> [] -> 0 <= p <= 100 ->
  exists r, percentile values p = Some r /\ min values <= r /\ r <= max values.
Proof.
  intros Hne Hp.
  destruct values as [|v1 [|v2 rest]]; [congruence| |].
  - exists v1. simpl. repeat split; auto; apply Qle_refl.
  - set (values := v1 :: v2 :: rest) in *.
    destruct (rank_bounds (List.length values) p) as (B0 & _ & B2);
      [simpl; lia | exact Hp |].
    destruct (rank_read (sort_copy values) ((p / 100) * (length_num values - 1))
                (sort_copy_sorted values)) as (slo & shi & r & Nlo & Nhi & R & _ & L & U);
      [exact B0 | rewrite sort_copy_length; exact B2 |].
    exists r. split.
    + unfold values. rewrite percentile_long. exact R.
    + apply sorted_member in Nlo. apply sorted_member in Nhi.
      pose proof (min_is_lower_bound values slo Nlo).
      pose proof (max_is_upper_bound values shi Nhi).
      split; lra.
Qed.

(** Witness for X1. *)
Lemma percentile_between_min_and_max_witness :
  exists r, percentile [50; 10; 40; 20; 30] 95 = Some r
            /\ min [50; 10; 40; 20; 30] <= r /\ r <= max [50; 10; 40; 20; 30].
Proof.
  apply (percentile_between_min_and_max [50; 10; 40; 20; 30] 95).
  - discriminate.
  - split; vm_compute; discriminate.
Defined.

(** X2. [percentile] is monotone in [p]: over the same non-empty samples a
    higher percentile is never a smaller value, so p50 <= p95 <= p99. *)
Theorem percentile_monotone (values : list Q) (p q : Q) :
  values <> [] -> 0 <= p -> p <= q -> q <= 100 ->
  exists r1 r2,
    percentile values p = Some r1 /\ percentile values q = Some r2 /\ r1 <= r2.
Proof.
  intros Hne Hp Hpq Hq.
  destruct values as [|v1 [|v2 rest]]; [congruence| |].
  - exists v1, v1. simpl. repeat split; auto. apply Qle_refl.
  - set (values := v1 :: v2 :: rest) in *.
    assert (Hn : (1 <= List.length values)%nat) by (simpl; lia).
    destruct (rank_bounds (List.length values) p) as (P0 & _ & P2);
      [exact Hn | split; lra |].
    destruct (rank_bounds (List.length values) q) as (Q0 & _ & Q2);
      [exact Hn | split; lra |].
    destruct (rank_read (sort_copy values) ((p / 100) * (length_num values - 1))
                (sort_copy_sorted values)) as (_ & _ & r1 & _ & _ & R1 & _);
      [exact P0 | rewrite sort_copy_length; exact P2 |].
    destruct (rank_read (sort_copy values) ((q / 100) * (length_num values - 1))
                (sort_copy_sorted values)) as (_ & _ & r2 & _ & _ & R2 & _);
      [exact Q0 | rewrite sort_copy_length; exact Q2 |].
    exists r1, r2. unfold values at 1 2. rewrite !percentile_long.
    repeat split; auto.
    apply (rank_read_monotone (sort_copy values)
             ((p / 100) * (length_num values - 1))
             ((q / 100) * (length_num values - 1)) r1 r2); auto.
    + apply sort_copy_sorted.
    + rewrite sort_copy_length. exact Q2.
    + apply rank_of_percent_monotone; auto.
Qed.

(** Witness for X2. *)
Lemma percentile_monotone_witness :
  exists r1 r2,
    percentile [50; 10; 40; 20; 30] 50 = Some r1
    /\ percentile [50; 10; 40; 20; 30] 95 = Some r2 /\ r1 <= r2.
Proof.
  apply (percentile_monotone [50; 10; 40; 20; 30] 50 95);
    (discriminate || (vm_compute; discriminate)).
Defined.

Lemma reduce_nonnegative (l : list Q) : forall acc,
  0 <= acc -> (forall x, In x l -> 0 <= x) ->
  0 <= fold_left (fun sum v => sum + v) l acc.
Proof.
  induction l as [|x l IH]; intros acc Ha H; simpl; [exact Ha|].
  apply IH.
  - pose proof (H x (or_introl eq_refl)). lra.
  - intros y Hy. apply H. now right.
Qed.

(** X5. [stddev] is 0 for fewer than two samples.  For two or more it is the
    square root of a quantity that is never negative, so the root is
    always defined. *)
Theorem stddev_radicand_nonnegative (values : list Q) :
  match stddev values with
  | Rational q => q = 0 /\ (List.length values < 2)%nat
  | Math_sqrt q => 0 <= q /\ (2 <= List.length values)%nat
  end.
Proof.
  unfold stddev. destruct (List.length values <? 2)%nat eqn:E.
  - apply Nat.ltb_lt in E. auto.
  - apply Nat.ltb_ge in E. split; [|exact E].
    apply Qle_shift_div_l.
    + unfold length_num.
      assert (H : inject_Z 2 <= inject_Z (Z.of_nat (List.length values)))
        by (rewrite <- Zle_Qle; lia).
      change (inject_Z 2) with 2 in H. lra.
    + rewrite Qmult_0_l. apply reduce_nonnegative; [apply Qle_refl|].
      intros x Hx. apply in_map_iff in Hx as (v & <- & _).
      apply Qsqr_nonneg.
Qed.

(** X6. The degenerate inputs of [computeStats]: no samples give count 0 and
    zeros everywhere; one sample gives that sample as minimum, maximum,
    mean and every percentile, with a standard deviation of 0. *)
Theorem computeStats_degenerate_inputs :
  computeStats [] = mkStats 0 0 0 0 (Rational 0) (Some 0) (Some 0) (Some 0)
  /\ forall v,
       let stats := computeStats [v] in
       count stats = 1%nat
       /\ stat_min stats = v /\ stat_max stats = v
       /\ stat_mean stats == v
       /\ stat_stddev stats = Rational 0
       /\ stat_p50 stats = Some v /\ stat_p95 stats = Some v
       /\ stat_p99 stats = Some v.
Proof.
  split; [reflexivity|]. intros v. cbn. repeat split; try reflexivity.
  unfold mean, length_num. simpl. field.
Qed.

End MetricsOrderFacts.

(** ** Statistics engine: independence of the sample order *)

Section MetricsPermutationFacts.

Import Metrics MetricsEq.
Open Scope Q_scope.

Lemma count_permutation (f : Q -> bool) (l1 l2 : list Q) :
  Permutation l1 l2 ->
  List.length (filter f l1) = List.length (filter f l2).
Proof.
  induction 1 as [|x l1 l2 _ IH|x y l|l1 l2 l3 _ IH1 _ IH2]; simpl.
  - reflexivity.
  - destruct (f x); simpl; congruence.
  - destruct (f x), (f y); reflexivity.
  - congruence.
Qed.

Lemma filter_none (f : Q -> bool) (l : list Q) :
  (forall y, In y l -> f y = false) -> filter f l = [].
Proof.
  induction l as [|z l IH]; intros H; simpl; [reflexivity|].
  rewrite (H z (or_introl eq_refl)). apply IH. intros y Hy. apply H. now right.
Qed.

(** In a sorted array, fewer than [k + 1] elements are below the element
    at position [k], and more than [k] are at most that element. *)
Lemma sorted_position_counts (l : list Q) :
  StronglySorted Qle l ->
  forall k x, nth_error l k = Some x ->
    (List.length (filter (fun y => negb (Qle_bool x y)) l) <= k)%nat
    /\ (k < List.length (filter (fun y => Qle_bool y x) l))%nat.
Proof.
  induction 1 as [|h t S IH F]; intros k x Hk.
  - destruct k; discriminate.
  - rewrite Forall_forall in F. destruct k as [|k]; simpl in Hk.
    + injection Hk as <-. split.
      * assert (E : filter (fun y => negb (Qle_bool h y)) (h :: t) = []).
        { apply filter_none.
          intros y [<-|Hy]; apply negb_false_iff, Qle_bool_iff;
            [apply Qle_refl | now apply F]. }
        rewrite E. simpl. lia.
      * simpl. assert (E : Qle_bool h h = true) by (apply Qle_bool_iff, Qle_refl).
        rewrite E. simpl. lia.
    + destruct (IH k x Hk) as [I1 I2]. simpl. split.
      * destruct (negb (Qle_bool x h)); simpl; lia.
      * assert (E : Qle_bool h x = true).
        { apply Qle_bool_iff, F. eapply nth_error_In; eauto. }
        rewrite E. simpl. lia.
Qed.

Lemma count_below_grows (x y : Q) (l : list Q) :
  x < y ->
  (List.length (filter (fun z => Qle_bool z x) l)
   <= List.length (filter (fun z => negb (Qle_bool y z)) l))%nat.
Proof.
  intros Hxy. induction l as [|z l IH]; simpl; [lia|].
  destruct (Qle_bool z x) eqn:E1.
  - apply Qle_bool_iff in E1.
    assert (E2 : Qle_bool y z = false).
    { destruct (Qle_bool y z) eqn:E; [|reflexivity].
      apply Qle_bool_iff in E. lra. }
    rewrite E2. simpl. lia.
  - destruct (negb (Qle_bool y z)); simpl; lia.
Qed.

(** The sorted copies of two arrays with the same elements hold equal
    numbers at every position. *)
Lemma sorted_copies_agree (v1 v2 : list Q) (k : nat) (x y : Q) :
  Permutation v1 v2 ->
  nth_error (sort_copy v1) k = Some x ->
  nth_error (sort_copy v2) k = Some y ->
  x == y.
Proof.
  intros P Hx Hy.
  assert (PS : Permutation (sort_copy v1) (sort_copy v2)).
  { eapply Permutation_trans; [symmetry; apply sort_copy_permutation|].
    eapply Permutation_trans; [exact P | apply sort_copy_permutation]. }
  destruct (sorted_position_counts _ (sort_copy_sorted v1) k x Hx) as [X1 X2].
  destruct (sorted_position_counts _ (sort_copy_sorted v2) k y Hy) as [Y1 Y2].
  destruct (Q_dec x y) as [[L|G]|E]; [| |exact E]; exfalso.
  - pose proof (count_below_grows x y (sort_copy v1) L) as C.
    pose proof (count_permutation (fun z => negb (Qle_bool y z)) _ _ PS). lia.
  - pose proof (count_below_grows y x (sort_copy v2) G) as C.
    pose proof (count_permutation (fun z => negb (Qle_bool x z)) _ _ PS). lia.
Qed.

Lemma sorted_copies_read_alike (v1 v2 : list Q) (i : Z) :
  Permutation v1 v2 ->
  same_number (at_index (sort_copy v1) i) (at_index (sort_copy v2) i).
Proof.
  intros P. unfold at_index. destruct (i <? 0)%Z; [exact I|].
  destruct (nth_error (sort_copy v1) (Z.to_nat i)) as [x|] eqn:E1;
  destruct (nth_error (sort_copy v2) (Z.to_nat i)) as [y|] eqn:E2; simpl; auto.
  - eapply sorted_copies_agree; eauto.
  - apply nth_error_None in E2.
    assert (H : (Z.to_nat i < List.length (sort_copy v1))%nat)
      by (apply nth_error_Some; congruence).
    rewrite sort_copy_length in *. apply Permutation_length in P. lia.
  - apply nth_error_None in E1.
    assert (H : (Z.to_nat i < List.length (sort_copy v2))%nat)
      by (apply nth_error_Some; congruence).
    rewrite sort_copy_length in *. apply Permutation_length in P. lia.
Qed.

(** X3. [percentile] does not depend on the order of the samples: on two
    arrays with the same elements it returns equal numbers, for every
    [p], or fails to return a number on both. *)
Theorem percentile_ignores_order (v1 v2 : list Q) (p : Q) :
  Permutation v1 v2 -> same_number (percentile v1 p) (percentile v2 p).
Proof.
  intros P. pose proof (Permutation_length P) as L.
  destruct v1 as [|a1 [|a2 r1]], v2 as [|b1 [|b2 r2]]; try discriminate L.
  - simpl. reflexivity.
  - apply Permutation_length_1 in P. subst. simpl. reflexivity.
  - rewrite !percentile_long.
    assert (E : length_num (b1 :: b2 :: r2) = length_num (a1 :: a2 :: r1))
      by (unfold length_num; now rewrite L).
    rewrite E.
    set (index := (p / 100) * (length_num (a1 :: a2 :: r1) - 1)).
    pose proof (sorted_copies_read_alike _ _ (Qfloor index) P) as Hlo.
    pose proof (sorted_copies_read_alike _ _ (Qceiling index) P) as Hhi.
    destruct (Qfloor index =? Qceiling index)%Z; [exact Hlo|].
    destruct (at_index (sort_copy (a1 :: a2 :: r1)) (Qfloor index)) as [x1|],
             (at_index (sort_copy (b1 :: b2 :: r2)) (Qfloor index)) as [y1|];
      simpl in Hlo; try contradiction; simpl; auto.
    destruct (at_index (sort_copy (a1 :: a2 :: r1)) (Qceiling index)) as [x2|],
             (at_index (sort_copy (b1 :: b2 :: r2)) (Qceiling index)) as [y2|];
      simpl in Hhi; try contradiction; simpl; auto.
    rewrite Hlo, Hhi. reflexivity.
Qed.

(** Witness for X3. *)
Lemma percentile_ignores_order_witness :
  same_number (percentile [50; 10; 40; 20; 30] 95)
              (percentile [10; 20; 30; 40; 50] 95).
Proof.
  apply percentile_ignores_order.
  apply Permutation_trans with (10 :: 50 :: [40; 20; 30]); [apply perm_swap|].
  apply perm_skip.
  apply Permutation_trans with (40 :: 50 :: [20; 30]); [apply perm_swap|].
  apply Permutation_trans with (40 :: 20 :: 50 :: [30]);
    [apply perm_skip, perm_swap|].
  apply Permutation_trans with (20 :: 40 :: 50 :: [30]); [apply perm_swap|].
  apply perm_skip.
  apply Permutation_trans with (40 :: 30 :: [50]); [apply perm_skip, perm_swap|].
  apply Permutation_trans with (30 :: 40 :: [50]); [apply perm_swap|].
  apply Permutation_refl.
Defined.

End MetricsPermutationFacts.

(** ** Case executor: the records *)

Section RunnerRecordFacts.

Import QueryRunner.
Open Scope list_scope.
Open Scope nat_scope.

Variable performance_now : nat -> Q.
Variable date_iso : nat -> string.
Variable benchCase : BenchmarkCase.
Variable ctx : BenchmarkContext.
Variable opts : QueryRunnerOptions.

Local Abbreviation run := (runBenchmarkCase performance_now date_iso benchCase ctx opts).
Local Abbreviation pushed_record := (pushed_record performance_now date_iso benchCase opts).

Lemma run_results_are_pushed (w : world) (results : list BenchmarkResult) (w' : world) :
  run w = (inl results, w') ->
  forall r, In r results -> exists i v locals, r = pushed_record i v locals.
Proof.
  intros H r Hin. apply In_nth_error in Hin as [j Hj].
  destruct (run_returns _ _ _ _ _ w results w' H) as (_ & _ & _ & Hnth).
  destruct (Hnth j r Hj) as (l & v & _ & ->). eauto.
Qed.

Lemma pushed_record_tags (i : nat) (v : world)
    (locals : Z * option string * option string) :
  runId (pushed_record i v locals) = opt_runId opts
  /\ suite (pushed_record i v locals) = opt_suite opts
  /\ benchmark (pushed_record i v locals) = name benchCase
  /\ database (pushed_record i v locals) = opt_database opts
  /\ scale (pushed_record i v locals) = opt_scale opts.
Proof.
  unfold QueryRunner.pushed_record.
  destruct locals as [[rows plan] err]. simpl. auto.
Qed.

(** X7. Every record carries the run id, suite, database and scale of the
    options and the name of the case it was measured for. *)
Theorem records_are_tagged (w : world) (results : list BenchmarkResult) (w' : world) :
  run w = (inl results, w') ->
  forall r, In r results ->
    runId r = opt_runId opts /\ suite r = opt_suite opts
    /\ benchmark r = name benchCase
    /\ database r = opt_database opts /\ scale r = opt_scale opts.
Proof.
  intros H r Hin.
  destruct (run_results_are_pushed w results w' H r Hin) as (i & v & l & ->).
  apply pushed_record_tags.
Qed.

(** X8. With a clock that never runs backwards, no record has a negative
    query time, whether its iteration succeeded or failed. *)
Theorem query_times_are_not_negative
    (w : world) (results : list BenchmarkResult) (w' : world) :
  (forall n, (performance_now n <= performance_now (S n))%Q) ->
  run w = (inl results, w') ->
  forall r, In r results -> (0 <= queryTimeMs r)%Q.
Proof.
  intros Hmono H r Hin.
  destruct (run_results_are_pushed w results w' H r Hin) as (i & v & l & ->).
  unfold QueryRunner.pushed_record.
  destruct l as [[rows plan] err]. simpl.
  pose proof (Hmono (perf_reads v)). lra.
Qed.

End RunnerRecordFacts.

Section RunnerRecordScenarios.

Import QueryRunner Scenarios.
Open Scope list_scope.

(** Witness for X7. *)
Lemma records_are_tagged_witness :
  let outcome := runBenchmarkCase clock stamp refused amsterdam (options 2 1) fresh in
  let results := match fst outcome with inl rs => rs | inr _ => [] end in
  Forall (fun r =>
    runId r = "run-1"%string /\ suite r = "bbox"%string
    /\ benchmark r = "bbox-amsterdam"%string
    /\ database r = postgis /\ scale r = 5000%Z) results.
Proof.
  intros outcome results. apply Forall_forall.
  apply (records_are_tagged clock stamp refused amsterdam (options 2 1)
           fresh results (snd outcome)).
  vm_compute. reflexivity.
Defined.

(** Witness for X8. *)
Lemma query_times_are_not_negative_witness :
  let outcome := runBenchmarkCase clock stamp refused amsterdam (options 2 1) fresh in
  let results := match fst outcome with inl rs => rs | inr _ => [] end in
  Forall (fun r => (0 <= queryTimeMs r)%Q) results.
Proof.
  intros outcome results. apply Forall_forall.
  apply (query_times_are_not_negative clock stamp refused amsterdam (options 2 1)
           fresh results (snd outcome)).
  - intros n. unfold clock. rewrite <- Zle_Qle. lia.
  - vm_compute. reflexivity.
Defined.

End RunnerRecordScenarios.

(** ** Results store: appending and reading back *)

Section StoreFacts.

Import ResultsDb ResultsQueries.
Open Scope string_scope.
Open Scope list_scope.

Lemma insertResult_stores (d : Database) (r : QueryRunner.BenchmarkResult) :
  exists row,
    benchmark_results (insertResult d r) = benchmark_results d ++ [row]
    /\ stored_as r row
    /\ id row = S (List.length (benchmark_results d))
    /\ runs (insertResult d r) = runs d.
Proof.
  eexists. split; [reflexivity|]. unfold stored_as. simpl. repeat split.
Qed.

Lemma insertResults_rows (results : list QueryRunner.BenchmarkResult) :
  forall d,
  exists rows,
    benchmark_results (insertResults d results) = benchmark_results d ++ rows
    /\ Forall2 stored_as results rows
    /\ runs (insertResults d results) = runs d
    /\ map id rows = seq (S (List.length (benchmark_results d))) (List.length results).
Proof.
  induction results as [|r results IH]; intros d.
  - exists []. simpl. rewrite app_nil_r. repeat split; auto.
  - destruct (insertResult_stores d r) as (row & E & St & Id & Rn).
    destruct (IH (insertResult d r)) as (rows & E' & F & Rn' & Ids).
    exists (row :: rows). unfold insertResults in *. simpl fold_left.
    repeat split.
    + rewrite E', E, <- app_assoc. reflexivity.
    + constructor; auto.
    + congruence.
    + simpl. rewrite Id, Ids, E, length_app, Nat.add_1_r. reflexivity.
Qed.

(** X9. [insertResults] only appends: the rows already stored stay where they
    are, one row is added per result, in order and with the values of the
    result, the run records are not touched, and the row numbering
    1, 2, 3, ... is kept. *)
Theorem insertResults_appends
    (d : Database) (results : list QueryRunner.BenchmarkResult) :
  exists rows,
    benchmark_results (insertResults d results) = benchmark_results d ++ rows
    /\ Forall2 stored_as results rows
    /\ runs (insertResults d results) = runs d
    /\ (numbered d -> numbered (insertResults d results)).
Proof.
  destruct (insertResults_rows results d) as (rows & E & F & Rn & Ids).
  exists rows. repeat split; auto.
  unfold numbered. intros N.
  rewrite E, map_app, N, Ids, length_app.
  assert (L : List.length rows = List.length results).
  { symmetry. eapply Forall2_length; eauto. }
  rewrite L. symmetry. apply seq_app.
Qed.

Lemma Forall2_filter_stored (id : string)
    (results : list QueryRunner.BenchmarkResult) (rows : list result_row) :
  Forall2 stored_as results rows ->
  Forall2 stored_as (filter (fun r => QueryRunner.runId r =? id) results)
                    (filter (fun r => run_id r =? id) rows).
Proof.
  induction 1 as [|r row results rows St _ IH]; simpl; [constructor|].
  assert (E : run_id row = QueryRunner.runId r) by apply St.
  rewrite E. destruct (QueryRunner.runId r =? id); auto.
Qed.

(** X10. What [getResultsByRun] returns after [insertResults]: the rows it
    returned before, followed by one row for each inserted result of that
    run, in insertion order and with the result's values.  Results of
    other runs do not show. *)
Theorem getResultsByRun_after_insertResults
    (d : Database) (results : list QueryRunner.BenchmarkResult) (id : string) :
  exists rows,
    getResultsByRun (insertResults d results) id = getResultsByRun d id ++ rows
    /\ Forall2 stored_as (filter (fun r => QueryRunner.runId r =? id) results) rows.
Proof.
  destruct (insertResults_rows results d) as (rows & E & F & _).
  exists (filter (fun r => run_id r =? id) rows). unfold getResultsByRun.
  rewrite E, filter_app. split; [reflexivity|].
  now apply Forall2_filter_stored.
Qed.

Lemma existsb_run_id (id : string) (rows : list run_row) :
  existsb (fun r => runs_run_id r =? id) rows = true <-> In id (map runs_run_id rows).
Proof.
  rewrite existsb_exists, in_map_iff. split.
  - intros (r & Hin & E). apply String.eqb_eq in E. eauto.
  - intros (r & E & Hin). exists r. split; auto. now apply String.eqb_eq.
Qed.

Lemma update_keeps_keys (now id : string) (rows : list run_row) :
  map runs_run_id (map (update_finished_at now id) rows) = map runs_run_id rows.
Proof.
  rewrite map_map. apply map_ext. intros r. unfold update_finished_at.
  now destruct (runs_run_id r =? id).
Qed.

(** X11. Run ids stay unique.  [insertRun] refuses an id that is already
    present and leaves the database alone, and otherwise adds the run as
    the last record, unfinished; neither [insertRun] nor [finishRun] ever
    produces two records with the same id. *)
Theorem run_ids_stay_unique (now : string) (d : Database) (id config : string) :
  NoDup (run_ids d) ->
  (In id (run_ids d) ->
     insertRun now d id config = inr SQLITE_CONSTRAINT_PRIMARYKEY)
  /\ (~ In id (run_ids d) ->
        exists d', insertRun now d id config = inl d'
                   /\ runs d' = runs d ++ [mkRunRow id now None (Some config)]
                   /\ benchmark_results d' = benchmark_results d
                   /\ NoDup (run_ids d'))
  /\ (forall d' n, finishRun now d id = inl (d', n) ->
        run_ids d' = run_ids d /\ NoDup (run_ids d')).
Proof.
  intros N. unfold insertRun, run_ids in *. repeat split.
  - intros Hin. apply existsb_run_id in Hin. now rewrite Hin.
  - intros Hnot.
    destruct (existsb (fun r => runs_run_id r =? id) (runs d)) eqn:E.
    + apply existsb_run_id in E. contradiction.
    + eexists. repeat split. simpl. rewrite map_app. simpl.
      apply NoDup_app; auto.
      * constructor; [intros []|constructor].
      * intros x Hx [<-|[]]. contradiction.
  - unfold finishRun in H. injection H as <- _. simpl. apply update_keeps_keys.
  - unfold finishRun in H. injection H as <- _. simpl.
    now rewrite update_keeps_keys.
Qed.

Lemma changes_app (id : string) (l1 l2 : list run_row) :
  changes id (l1 ++ l2) = (changes id l1 + changes id l2)%nat.
Proof. unfold changes. now rewrite filter_app, length_app. Qed.

Lemma untouched_runs (now id : string) (rows : list run_row) :
  ~ In id (map runs_run_id rows) ->
  map (update_finished_at now id) rows = rows /\ changes id rows = 0%nat.
Proof.
  intros H. apply update_leaves_other_runs.
  intros r Hin E. apply H. apply in_map_iff. eauto.
Qed.

(** X12. Recording a run and finishing it: after a successful [insertRun],
    [finishRun] with the same id changes exactly one record, the new one,
    which then holds the start time, the finish time and the
    configuration; every other record and every measurement is as it
    was. *)
Theorem insertRun_then_finishRun
    (started finished : string) (d d1 : Database) (id config : string) :
  insertRun started d id config = inl d1 ->
  finishRun finished d1 id =
    inl (mkDatabase (benchmark_results d)
           (runs d ++ [mkRunRow id started (Some finished) (Some config)]),
         1%nat).
Proof.
  unfold insertRun.
  destruct (existsb (fun r => runs_run_id r =? id) (runs d)) eqn:E; [discriminate|].
  intros H. injection H as <-.
  assert (Hnot : ~ In id (map runs_run_id (runs d))).
  { rewrite <- existsb_run_id. congruence. }
  destruct (untouched_runs finished id (runs d) Hnot) as [U C].
  unfold finishRun. simpl.
  rewrite map_app, U, changes_app, C. simpl.
  unfold update_finished_at, changes. simpl. rewrite String.eqb_refl. reflexivity.
Qed.

Lemma update_twice (t1 t2 id : string) (r : run_row) :
  update_finished_at t2 id (update_finished_at t1 id r) = update_finished_at t2 id r.
Proof.
  unfold update_finished_at. destruct (runs_run_id r =? id) eqn:E; simpl; now rewrite E.
Qed.

Lemma update_matches_alike (t1 id : string) (rows : list run_row) :
  changes id (map (update_finished_at t1 id) rows) = changes id rows.
Proof.
  unfold changes. induction rows as [|r rows IH]; simpl; [reflexivity|].
  assert (E : runs_run_id (update_finished_at t1 id r) = runs_run_id r).
  { unfold update_finished_at. now destruct (runs_run_id r =? id). }
  rewrite E. destruct (runs_run_id r =? id); simpl; congruence.
Qed.


End StoreFacts.

Section StoreScenarios.

Import ResultsDb ResultsQueries Scenarios.
Open Scope string_scope.
Open Scope list_scope.

(** Witness for X11. *)
Lemma run_ids_stay_unique_witness :
  insertRun "2024-01-02T00:00:00.000Z" only_failures "run-1" "{}"
    = inr SQLITE_CONSTRAINT_PRIMARYKEY
  /\ exists d', insertRun "2024-01-02T00:00:00.000Z" only_failures "run-2" "{}" = inl d'
                /\ NoDup (run_ids d').
Proof.
  assert (N : NoDup (run_ids only_failures)).
  { repeat constructor. intros []. }
  destruct (run_ids_stay_unique "2024-01-02T00:00:00.000Z" only_failures "run-1" "{}" N)
    as (Dup & _ & _).
  destruct (run_ids_stay_unique "2024-01-02T00:00:00.000Z" only_failures "run-2" "{}" N)
    as (_ & Fresh & _).
  split.
  - apply Dup. now left.
  - destruct Fresh as (d' & E & _ & _ & N').
    + intros [H|[]]. discriminate.
    + exists d'. auto.
Defined.

(** Witness for X12. *)
Lemma insertRun_then_finishRun_witness :
  finishRun "2024-01-02T00:05:00.000Z"
    (mkDatabase [failed_measurement]
       [mkRunRow "run-1" "2024-01-01T00:00:00.000Z" None (Some "{}");
        mkRunRow "run-2" "2024-01-02T00:00:00.000Z" None (Some "{}")])
    "run-2"
  = inl (mkDatabase [failed_measurement]
           [mkRunRow "run-1" "2024-01-01T00:00:00.000Z" None (Some "{}");
            mkRunRow "run-2" "2024-01-02T00:00:00.000Z"
              (Some "2024-01-02T00:05:00.000Z") (Some "{}")],
         1%nat).
Proof.
  apply (insertRun_then_finishRun "2024-01-02T00:00:00.000Z"
           "2024-01-02T00:05:00.000Z" only_failures _ "run-2" "{}").
  reflexivity.
Defined.

End StoreScenarios.

(** ** From a case to its statistics *)

Section PipelineFacts.

Import QueryRunner ResultsDb ResultsQueries RunnerSummary.
Open Scope string_scope.
Open Scope list_scope.

Lemma stored_rows_of_other_runs (id : string)
    (results : list BenchmarkResult) (rows : list result_row) :
  Forall2 stored_as results rows ->
  (forall r, In r results -> runId r <> id) ->
  forall f, filter (fun r => (run_id r =? id) && f r) rows = [].
Proof.
  induction 1 as [|r row results rows St _ IH]; intros H f; simpl; [reflexivity|].
  assert (E : run_id row = runId r) by apply St.
  assert (N : (run_id row =? id) = false).
  { apply String.eqb_neq. rewrite E. apply H. now left. }
  rewrite N. simpl. apply IH. intros x Hx. apply H. now right.
Qed.

Lemma filter_by_run (id : string) (l : list result_row) (f : result_row -> bool) :
  filter (fun r => (run_id r =? id) && f r) l
  = filter f (filter (fun r => run_id r =? id) l).
Proof.
  induction l as [|r l IH]; simpl; [reflexivity|].
  destruct (run_id r =? id); simpl; [|exact IH].
  destruct (f r); now rewrite IH.
Qed.

Lemma select_times_by_run (d : Database) (id : string) (g : group) :
  select_times d id g
  = map query_time_ms
      (filter (fun r => group_eqb (group_of r) g && is_null (error r))
              (getResultsByRun d id)).
Proof.
  unfold select_times, getResultsByRun. rewrite <- filter_by_run.
  f_equal. apply filter_ext. intros r. now rewrite andb_assoc.
Qed.

(** Statistics of a run are computed from that run's rows only. *)
Lemma getStatsForRun_by_run (d d' : Database) (id : string) :
  getResultsByRun d id = getResultsByRun d' id ->
  getStatsForRun d id = getStatsForRun d' id.
Proof.
  intros E. unfold getStatsForRun, select_groups.
  fold (getResultsByRun d id). fold (getResultsByRun d' id). rewrite E.
  apply map_ext. intros g. now rewrite !select_times_by_run, E.
Qed.

(** X14. Measurements of other runs do not change the statistics of a run. *)
Theorem getStatsForRun_ignores_other_runs
    (d : Database) (results : list BenchmarkResult) (id : string) :
  (forall r, In r results -> runId r <> id) ->
  getStatsForRun (insertResults d results) id = getStatsForRun d id.
Proof.
  intros H. apply getStatsForRun_by_run.
  destruct (insertResults_rows results d) as (rows & E & F & _).
  unfold getResultsByRun. rewrite E, filter_app.
  pose proof (stored_rows_of_other_runs id results rows F H (fun _ => true)) as N.
  assert (N' : filter (fun r => run_id r =? id) rows = []).
  { rewrite <- N. apply filter_ext. intros r. now rewrite andb_true_r. }
  now rewrite N', app_nil_r.
Qed.

Lemma distinct_repeat (g : group) (n : nat) :
  distinct [] (repeat g n) = match n with O => [] | S _ => [g] end.
Proof.
  destruct n as [|n]; [reflexivity|]. simpl. f_equal.
  induction n as [|n IH]; simpl; [reflexivity|].
  assert (E : group_eqb g g = true) by now apply group_eqb_eq.
  now rewrite E.
Qed.

Lemma stored_rows_of_one_group (id : string) (g : group)
    (results : list BenchmarkResult) (rows : list result_row) :
  Forall2 stored_as results rows ->
  (forall r, In r results ->
     runId r = id
     /\ (QueryRunner.suite r, QueryRunner.benchmark r,
         database_name (QueryRunner.database r), QueryRunner.scale r) = g) ->
  filter (fun r => run_id r =? id) rows = rows
  /\ map group_of rows = repeat g (List.length rows)
  /\ map query_time_ms
       (filter (fun r => group_eqb (group_of r) g && is_null (error r)) rows)
     = map queryTimeMs (filter (fun r => is_null (QueryRunner.error r)) results).
Proof.
  induction 1 as [|r row results rows St _ IH]; intros H;
    cbn [filter map List.length repeat]; [auto|].
  destruct (H r (or_introl eq_refl)) as [Hid Hg].
  destruct IH as (I1 & I2 & I3); [intros x Hx; apply H; now right|].
  destruct St as (S1 & S2 & S3 & S4 & S5 & _ & S7 & _ & _ & S10 & _).
  assert (G : group_of row = g).
  { unfold group_of. now rewrite S2, S3, S4, S5. }
  assert (E1 : (run_id row =? id) = true) by (apply String.eqb_eq; congruence).
  assert (E2 : group_eqb (group_of row) g = true) by now apply group_eqb_eq.
  rewrite E1, E2, I1, I2, G, S10. cbn [andb]. repeat split.
  destruct (is_null (QueryRunner.error r)); cbn [map]; now rewrite I3, ?S7.
Qed.

Section OneCase.

Variable performance_now : nat -> Q.
Variable date_iso : nat -> string.
Variable benchCase : BenchmarkCase.
Variable ctx : BenchmarkContext.
Variable opts : QueryRunnerOptions.

Local Abbreviation run := (runBenchmarkCase performance_now date_iso benchCase ctx opts).

Lemma stored_case_rows (w : world) (results : list BenchmarkResult) (w' : world)
    (d : Database) :
  run w = (inl results, w') ->
  getResultsByRun d (opt_runId opts) = [] ->
  let g := (opt_suite opts, name benchCase,
            database_name (opt_database opts), opt_scale opts) in
  getStatsForRun (insertResults d results) (opt_runId opts) =
    match results with
    | [] => []
    | _ :: _ =>
        [ {| bs_suite := opt_suite opts;
             bs_benchmark := name benchCase;
             bs_database := database_name (opt_database opts);
             bs_scale := opt_scale opts;
             bs_stats := Metrics.computeStats
                           (map queryTimeMs
                              (filter (fun r => is_null (QueryRunner.error r))
                                      results)) |} ]
    end.
Proof.
  intros H Hd g.
  destruct (insertResults_rows results d) as (rows & E & F & _).
  assert (T : forall r, In r results ->
            runId r = opt_runId opts
            /\ (QueryRunner.suite r, QueryRunner.benchmark r,
                database_name (QueryRunner.database r), QueryRunner.scale r) = g).
  { intros r Hin.
    destruct (run_results_are_pushed _ _ _ _ _ w results w' H r Hin)
      as (i & v & l & ->).
    destruct (pushed_record_tags performance_now date_iso benchCase opts i v l)
      as (T1 & T2 & T3 & T4 & T5).
    unfold g. now rewrite T1, T2, T3, T4, T5. }
  destruct (stored_rows_of_one_group (opt_runId opts) g results rows F T)
    as (R1 & R2 & R3).
  assert (G : getResultsByRun (insertResults d results) (opt_runId opts) = rows).
  { unfold getResultsByRun in *. now rewrite E, filter_app, Hd, R1. }
  unfold getStatsForRun, select_groups.
  fold (getResultsByRun (insertResults d results) (opt_runId opts)).
  rewrite G, R2, distinct_repeat.
  assert (L : List.length rows = List.length results).
  { symmetry. eapply Forall2_length; eauto. }
  destruct rows as [|row rows], results as [|r results]; try discriminate L;
    [reflexivity|].
  cbn [map List.length]. unfold g at 1. cbv beta iota.
  rewrite select_times_by_run, G. fold g. rewrite R3. reflexivity.
Qed.

(** X15. From a case to its statistics: when the records returned by
    [runBenchmarkCase] are stored in a database that holds nothing of that
    run yet, [getStatsForRun] returns one row, for the group of the case,
    with the statistics of the query times of the iterations without an
    error; it returns no row when there was no timed iteration. *)
Theorem stored_statistics_of_a_case
    (w : world) (results : list BenchmarkResult) (w' : world) (d : Database) :
  run w = (inl results, w') ->
  getResultsByRun d (opt_runId opts) = [] ->
  getStatsForRun (insertResults d results) (opt_runId opts) =
    match iterations opts with
    | O => []
    | S _ =>
        [ {| bs_suite := opt_suite opts;
             bs_benchmark := name benchCase;
             bs_database := database_name (opt_database opts);
             bs_scale := opt_scale opts;
             bs_stats := Metrics.computeStats
                           (map queryTimeMs
                              (filter (fun r => is_null (QueryRunner.error r))
                                      results)) |} ]
    end.
Proof.
  intros H Hd. rewrite (stored_case_rows w results w' d H Hd).
  assert (L : List.length results = iterations opts).
  { apply (run_returns _ _ _ _ _ w results w' H). }
  destruct results, (iterations opts); try discriminate L; reflexivity.
Qed.

Lemma truthy_unless_null (results : list BenchmarkResult) :
  (forall r, In r results -> QueryRunner.error r <> Some EmptyString) ->
  filter (fun r => negb (truthy (QueryRunner.error r))) results
  = filter (fun r => is_null (QueryRunner.error r)) results.
Proof.
  intros H. apply filter_ext_in. intros r Hin.
  specialize (H r Hin). destruct (QueryRunner.error r) as [[|c s]|]; simpl; congruence.
Qed.

Lemma filter_distinct (g : group) (gs : list group) : forall seen,
  filter (fun h => group_eqb h g) (distinct seen gs)
  = if existsb (group_eqb g) seen then []
    else if existsb (fun h => group_eqb h g) gs then [g] else [].
Proof.
  assert (Refl : group_eqb g g = true) by now apply group_eqb_eq.
  induction gs as [|h gs IH]; intros seen; simpl.
  - now destruct (existsb (group_eqb g) seen).
  - destruct (existsb (group_eqb h) seen) eqn:Eh.
    + rewrite IH. destruct (existsb (group_eqb g) seen) eqn:Eg; [reflexivity|].
      destruct (group_eqb h g) eqn:Ehg; [|reflexivity].
      apply group_eqb_eq in Ehg. subst h. congruence.
    + simpl. destruct (group_eqb h g) eqn:Ehg.
      * apply group_eqb_eq in Ehg. subst h. rewrite IH. simpl.
        now rewrite Refl, Eh.
      * rewrite IH. simpl.
        destruct (group_eqb g h) eqn:Egh; [|reflexivity].
        apply group_eqb_eq in Egh. subst h. congruence.
Qed.

Lemma filter_of_map {A B} (f : B -> bool) (m : A -> B) (l : list A) :
  filter f (map m l) = map m (filter (fun x => f (m x)) l).
Proof.
  induction l as [|x l IH]; simpl; [reflexivity|].
  destruct (f (m x)); simpl; now rewrite IH.
Qed.

Lemma none_of_group (g : group) (rows : list result_row) :
  (forall row, In row rows -> group_of row <> g) ->
  existsb (fun h => group_eqb h g) (map group_of rows) = false
  /\ forall f, filter (fun r => group_eqb (group_of r) g && f r) rows = [].
Proof.
  intros H. induction rows as [|row rows IH]; [auto|].
  assert (N : group_eqb (group_of row) g = false).
  { destruct (group_eqb (group_of row) g) eqn:E; [|reflexivity].
    apply group_eqb_eq in E. exfalso. apply (H row); [now left|exact E]. }
  destruct IH as [I1 I2]; [intros x Hx; apply H; now right|].
  cbn [existsb map]. rewrite N, I1. split; [reflexivity|].
  intros f. cbn [filter]. rewrite N. apply I2.
Qed.

(** The statistics row that [getStatsForRun] reports for the group of a
    case, once the records of the case are stored in a database that held
    nothing of that group for the run. *)
Lemma stored_group_row (w : world) (results : list BenchmarkResult) (w' : world)
    (d : Database) :
  let g := (opt_suite opts, name benchCase,
            database_name (opt_database opts), opt_scale opts) in
  run w = (inl results, w') ->
  (forall row, In row (getResultsByRun d (opt_runId opts)) -> group_of row <> g) ->
  filter (fun row => group_eqb (group_of_stats row) g)
         (getStatsForRun (insertResults d results) (opt_runId opts))
  = match results with
    | [] => []
    | _ :: _ =>
        [ {| bs_suite := opt_suite opts;
             bs_benchmark := name benchCase;
             bs_database := database_name (opt_database opts);
             bs_scale := opt_scale opts;
             bs_stats := Metrics.computeStats
                           (map queryTimeMs
                              (filter (fun r => is_null (QueryRunner.error r))
                                      results)) |} ]
    end.
Proof.
  intros g H Hd.
  destruct (insertResults_rows results d) as (rows & E & F & _).
  assert (T : forall r, In r results ->
            runId r = opt_runId opts
            /\ (QueryRunner.suite r, QueryRunner.benchmark r,
                database_name (QueryRunner.database r), QueryRunner.scale r) = g).
  { intros r Hin.
    destruct (run_results_are_pushed _ _ _ _ _ w results w' H r Hin)
      as (i & v & l & ->).
    destruct (pushed_record_tags performance_now date_iso benchCase opts i v l)
      as (T1 & T2 & T3 & T4 & T5).
    unfold g. now rewrite T1, T2, T3, T4, T5. }
  destruct (stored_rows_of_one_group (opt_runId opts) g results rows F T)
    as (R1 & R2 & R3).
  destruct (none_of_group g _ Hd) as [N1 N2].
  assert (G : getResultsByRun (insertResults d results) (opt_runId opts)
              = getResultsByRun d (opt_runId opts) ++ rows).
  { unfold getResultsByRun. now rewrite E, filter_app, R1. }
  assert (Ts : select_times (insertResults d results) (opt_runId opts) g
               = map queryTimeMs
                   (filter (fun r => is_null (QueryRunner.error r)) results)).
  { rewrite select_times_by_run, G, filter_app, N2. cbn [app]. exact R3. }
  unfold getStatsForRun, select_groups.
  fold (getResultsByRun (insertResults d results) (opt_runId opts)).
  rewrite G, filter_of_map.
  assert (Fg : forall l : list group,
            filter (fun h =>
                      group_eqb
                        (group_of_stats
                           (let times := select_times (insertResults d results)
                                           (opt_runId opts) h in
                            let stats := Metrics.computeStats times in
                            let '(s0, b0, db0, sc0) := h in
                            {| bs_suite := s0; bs_benchmark := b0;
                               bs_database := db0; bs_scale := sc0;
                               bs_stats := stats |})) g) l
            = filter (fun h => group_eqb h g) l).
  { intros l. apply filter_ext. now intros [[[s0 b0] db0] sc0]. }
  rewrite Fg, filter_distinct, map_app, existsb_app, N1, R2.
  assert (L : List.length rows = List.length results).
  { symmetry. eapply Forall2_length; eauto. }
  assert (Refl : group_eqb g g = true) by now apply group_eqb_eq.
  destruct rows as [|row rows], results as [|r results]; try discriminate L;
    [reflexivity|].
  cbn [existsb List.length repeat orb]. rewrite Refl. cbn [orb map].
  unfold g at 1. cbv beta iota zeta. fold g. now rewrite Ts.
Qed.

(** X16. The summary line and the stored statistics agree.  Let the records
    of a case be stored in a database that holds nothing of the case's
    group for this run, and let no record have an empty error text.  Then
    [getStatsForRun] reports for that group no row when there was no timed
    iteration and otherwise exactly one row, with the statistics of the
    query times of the iterations without an error; and the line printed
    after the case shows these very statistics when their count is
    positive and reads FAILED, with every iteration counted as an error,
    when it is 0. *)
Theorem summary_agrees_with_store
    (w : world) (results : list BenchmarkResult) (w' : world) (d : Database) :
  let g := (opt_suite opts, name benchCase,
            database_name (opt_database opts), opt_scale opts) in
  run w = (inl results, w') ->
  (forall row, In row (getResultsByRun d (opt_runId opts)) -> group_of row <> g) ->
  (forall r, In r results -> QueryRunner.error r <> Some EmptyString) ->
  exists stats,
    stats = Metrics.computeStats
              (map queryTimeMs
                 (filter (fun r => is_null (QueryRunner.error r)) results))
    /\ filter (fun row => group_eqb (group_of_stats row) g)
              (getStatsForRun (insertResults d results) (opt_runId opts))
       = match iterations opts with
         | O => []
         | S _ =>
             [ {| bs_suite := opt_suite opts;
                  bs_benchmark := name benchCase;
                  bs_database := database_name (opt_database opts);
                  bs_scale := opt_scale opts;
                  bs_stats := stats |} ]
         end
    /\ List.length results = iterations opts
    /\ summarize results =
         if (0 <? Metrics.count stats)%nat
         then Statistics stats
         else FAILED (List.length results) (List.length results).
Proof.
  intros g H Hd Herr. subst g. eexists. split; [reflexivity|].
  assert (L : List.length results = iterations opts)
    by apply (run_returns _ _ _ _ _ w results w' H).
  split; [|split; [exact L|]].
  - rewrite (stored_group_row w results w' d H Hd).
    destruct results, (iterations opts); try discriminate L; reflexivity.
  - cbn [Metrics.computeStats Metrics.count].
    unfold summarize, summary_times. rewrite (truthy_unless_null results Herr).
    destruct (0 <? _)%nat eqn:E; [reflexivity|].
    apply Nat.ltb_ge in E. rewrite length_map in E.
    pose proof (filter_length (fun r => negb (truthy (QueryRunner.error r))) results)
      as FL.
    rewrite (truthy_unless_null results Herr) in FL.
    assert (E0 : List.length (filter (fun r => is_null (QueryRunner.error r)) results)
                 = 0%nat) by lia.
    rewrite E0 in FL. simpl in FL.
    f_equal. rewrite <- FL. f_equal.
    apply filter_ext. intros r. now rewrite negb_involutive.
Qed.

End OneCase.

End PipelineFacts.

Section PipelineScenarios.

Import QueryRunner ResultsDb ResultsQueries RunnerSummary Scenarios.
Open Scope string_scope.
Open Scope list_scope.

(** Witness for X14. *)
Lemma getStatsForRun_ignores_other_runs_witness :
  let outcome := runBenchmarkCase clock stamp seven_rows amsterdam (options 3 2) fresh in
  let results := match fst outcome with inl rs => rs | inr _ => [] end in
  getStatsForRun (insertResults only_failures results) "run-2"
  = getStatsForRun only_failures "run-2".
Proof.
  intros outcome results. apply getStatsForRun_ignores_other_runs.
  intros r Hin.
  assert (E : runId r = "run-1").
  { vm_compute in Hin. destruct Hin as [<-|[<-|[<-|[]]]]; reflexivity. }
  rewrite E. discriminate.
Defined.

(** Witness for X15. *)
Lemma stored_statistics_of_a_case_witness :
  let outcome := runBenchmarkCase clock stamp seven_rows amsterdam (options 3 2) fresh in
  let results := match fst outcome with inl rs => rs | inr _ => [] end in
  getStatsForRun (insertResults (mkDatabase [] []) results) "run-1" =
    [ {| bs_suite := "bbox";
         bs_benchmark := "bbox-amsterdam";
         bs_database := "postgis";
         bs_scale := 5000;
         bs_stats := Metrics.computeStats
                       (map queryTimeMs
                          (filter (fun r => is_null (QueryRunner.error r)) results)) |} ].
Proof.
  intros outcome results.
  apply (stored_statistics_of_a_case clock stamp seven_rows amsterdam (options 3 2)
           fresh results (snd outcome) (mkDatabase [] [])).
  - vm_compute. reflexivity.
  - reflexivity.
Defined.

(** Witness for X16. *)
Lemma summary_agrees_with_store_witness :
  let outcome := runBenchmarkCase clock stamp refused amsterdam (options 2 1) fresh in
  let results := match fst outcome with inl rs => rs | inr _ => [] end in
  let g := ("bbox", "bbox-amsterdam", "postgis", 5000%Z) in
  exists stats,
    stats = Metrics.computeStats
              (map queryTimeMs
                 (filter (fun r => is_null (QueryRunner.error r)) results))
    /\ filter (fun row => group_eqb (group_of_stats row) g)
              (getStatsForRun (insertResults earlier_case results) "run-1")
       = [ {| bs_suite := "bbox";
              bs_benchmark := "bbox-amsterdam";
              bs_database := "postgis";
              bs_scale := 5000;
              bs_stats := stats |} ]
    /\ List.length results = 2%nat
    /\ summarize results =
         if (0 <? Metrics.count stats)%nat
         then Statistics stats
         else FAILED (List.length results) (List.length results).
Proof.
  intros outcome results g.
  apply (summary_agrees_with_store clock stamp refused amsterdam (options 2 1)
           fresh results (snd outcome) earlier_case).
  - vm_compute. reflexivity.
  - intros row [<-|[]]. discriminate.
  - intros r Hin. vm_compute in Hin.
    destruct Hin as [<-|[<-|[]]]; discriminate.
Defined.

End PipelineScenarios.

(** ** Resource sampler over time *)

Section SamplerFacts.

Import DockerStats Sampler.
Open Scope list_scope.
Open Scope nat_scope.

Variable run_id : string.
Variable containers : list string.
Variable probe : string -> nat -> option reading.
Variable date_iso : nat -> string.

Local Abbreviation poll := (poll run_id containers probe date_iso).
Local Abbreviation start := (start run_id containers probe date_iso).
Local Abbreviation interval_elapses := (interval_elapses run_id containers probe date_iso).
Local Abbreviation poll_container := (poll_container run_id probe date_iso).
Local Abbreviation happen := (happen run_id containers probe date_iso).
Local Abbreviation happen_all := (happen_all run_id containers probe date_iso).

Local Abbreviation tagged := (tagged run_id containers).

Lemma poll_container_appends (tick : nat) (cs : list string) : forall table,
  (forall c, In c cs -> In c containers) ->
  exists new,
    fold_left (poll_container tick) cs table = table ++ new
    /\ Forall tagged new /\ List.length new <= List.length cs.
Proof.
  induction cs as [|c cs IH]; intros table Hcs; simpl.
  - exists []. rewrite app_nil_r. repeat split; auto.
  - unfold DockerStats.poll_container at 2.
    destruct (probe c tick) as [r|].
    + destruct (IH (table ++
        [ {| runId := run_id; container := c;
             timestamp := date_iso (List.length table);
             cpuPercent := rd_cpuPercent r;
             memoryUsageMb := rd_memoryUsageMb r;
             memoryLimitMb := rd_memoryLimitMb r;
             networkRxBytes := rd_networkRxBytes r;
             networkTxBytes := rd_networkTxBytes r |} ])) as (new & E & T & L).
      { intros x Hx. apply Hcs. now right. }
      eexists (_ :: new). rewrite E, <- app_assoc.
      split; [reflexivity|]. split.
      * constructor; auto. split; simpl; auto. apply Hcs. now left.
      * simpl. lia.
    + destruct (IH table) as (new & E & T & L).
      { intros x Hx. apply Hcs. now right. }
      exists new. repeat split; auto.
Qed.

Lemma poll_grows (st : collector) :
  timer (poll st) = timer st /\ armed (poll st) = armed st
  /\ next_timer (poll st) = next_timer st /\ polls (poll st) = S (polls st)
  /\ exists new, snapshots (poll st) = snapshots st ++ new
                 /\ Forall tagged new /\ List.length new <= List.length containers.
Proof.
  unfold DockerStats.poll. simpl. repeat split.
  apply poll_container_appends. auto.
Qed.

Lemma repeated_polls (ids : list nat) : forall st,
  let st' := fold_left (fun s _ => poll s) ids st in
  timer st' = timer st /\ armed st' = armed st
  /\ next_timer st' = next_timer st
  /\ polls st' = polls st + List.length ids
  /\ exists new, snapshots st' = snapshots st ++ new /\ Forall tagged new.
Proof.
  induction ids as [|i ids IH]; intros st; cbn zeta.
  - simpl. repeat split; auto. exists []. now rewrite app_nil_r.
  - simpl fold_left.
    destruct (poll_grows st) as (T & A & N & P & new1 & S1 & F1 & _).
    destruct (IH (poll st)) as (T' & A' & N' & P' & new2 & S2 & F2).
    repeat split; try congruence.
    + rewrite P', P. simpl. lia.
    + exists (new1 ++ new2). rewrite S2, S1, <- app_assoc. split; auto.
      apply Forall_app. auto.
Qed.

Lemma happen_grows (st : collector) (e : event) :
  exists new, snapshots (happen st e) = snapshots st ++ new /\ Forall tagged new.
Proof.
  destruct e; simpl.
  - destruct (poll_grows st) as (_ & _ & _ & _ & new & S1 & F1 & _).
    exists new. unfold DockerStats.start, setInterval. simpl. auto.
  - exists []. rewrite app_nil_r. split; auto.
    unfold stop. now destruct (timer st).
  - destruct (repeated_polls (armed st) st) as (_ & _ & _ & _ & H). exact H.
Qed.

(** X17. The collector only ever appends to the snapshot table: whatever
    sequence of [start], [stop] and elapsed intervals happens, the
    snapshots that were there stay in place, and each added snapshot
    carries the run id and the name of a configured container. *)
Theorem snapshots_only_grow (events : list event) (st : collector) :
  exists new,
    snapshots (happen_all events st) = snapshots st ++ new
    /\ Forall tagged new.
Proof.
  revert st. induction events as [|e events IH]; intros st.
  - exists []. simpl. now rewrite app_nil_r.
  - destruct (happen_grows st e) as (new1 & S1 & F1).
    destruct (IH (happen st e)) as (new2 & S2 & F2).
    exists (new1 ++ new2). unfold Sampler.happen_all in *. simpl fold_left.
    rewrite S2, S1, <- app_assoc. split; auto. apply Forall_app. auto.
Qed.

(** X18. Used the way the runner uses it, one [start] and later one [stop],
    the collector has at most one timer armed, the one it remembers: this
    holds on creation and is kept by [stop], by an elapsed interval, and
    by a [start] that finds no timer remembered.  After [stop] nothing is
    armed. *)
Theorem one_timer_at_a_time (st : collector) :
  tidy st ->
  tidy (stop st) /\ armed (stop st) = []
  /\ tidy (interval_elapses st)
  /\ (timer st = None -> tidy (start st))
  /\ polls (interval_elapses st) = polls st + List.length (armed st).
Proof.
  unfold tidy. intros T. repeat split.
  - unfold stop. destruct (timer st) as [id|] eqn:E; simpl; [|now rewrite E].
    rewrite T. simpl. now rewrite Nat.eqb_refl.
  - unfold stop. destruct (timer st) as [id|] eqn:E; simpl; [|exact T].
    rewrite T. simpl. now rewrite Nat.eqb_refl.
  - destruct (repeated_polls (armed st) st) as (Ht & Ha & _).
    unfold DockerStats.interval_elapses. now rewrite Ht, Ha.
  - intros Hn. unfold DockerStats.start, setInterval. simpl.
    rewrite T, Hn. reflexivity.
  - destruct (repeated_polls (armed st) st) as (_ & _ & _ & Hp & _). exact Hp.
Qed.

Lemma start_arms (s : collector) :
  timer (start s) = Some (next_timer s)
  /\ armed (start s) = next_timer s :: armed s
  /\ next_timer (start s) = S (next_timer s)
  /\ polls (start s) = S (polls s).
Proof. unfold DockerStats.start, setInterval. simpl. auto. Qed.

(** What repeated [start] calls do to a collector without timers. *)
Lemma starts_pile_up (n : nat) (st : collector) :
  armed st = [] ->
  let st' := Nat.iter n start st in
  armed st' = rev (seq (next_timer st) n)
  /\ next_timer st' = next_timer st + n
  /\ polls st' = polls st + n
  /\ (1 <= n -> timer st' = Some (next_timer st + n - 1)).
Proof.
  intros Ha. induction n as [|n IH]; cbn zeta.
  - simpl. repeat split; auto; lia.
  - destruct IH as (A & N & P & T). simpl Nat.iter.
    destruct (start_arms (Nat.iter n start st)) as (T' & A' & N' & P').
    rewrite T', A', N', P', A, N, P. repeat split; try lia.
    + rewrite seq_S, rev_app_distr. reflexivity.
    + intros _. f_equal. lia.
Qed.

Lemma clear_misses (id : nat) (l : list nat) :
  (forall x, In x l -> x <> id) -> clearInterval id l = l.
Proof.
  unfold clearInterval. induction l as [|x l IH]; intros H; simpl; [reflexivity|].
  assert (E : (x =? id) = false) by (apply Nat.eqb_neq, H; now left).
  rewrite E. simpl. f_equal. apply IH. intros y Hy. apply H. now right.
Qed.

(** X19. [start] is not guarded: [n] calls in a row on a collector without
    timers make [n] polls and arm [n] timers.  One [stop] then disarms only
    the newest, so [n - 1] timers stay armed and every elapsed interval
    still triggers [n - 1] polls. *)
Theorem repeated_start_leaves_timers (n : nat) (st : collector) :
  armed st = [] -> 1 <= n ->
  let started := Nat.iter n start st in
  polls started = polls st + n
  /\ List.length (armed started) = n
  /\ List.length (armed (stop started)) = n - 1
  /\ timer (stop started) = None
  /\ polls (interval_elapses (stop started)) = polls (stop started) + (n - 1).
Proof.
  intros Ha Hn started.
  destruct (starts_pile_up n st Ha) as (A & N & P & T). fold started in A, N, P, T.
  specialize (T Hn).
  assert (S : stop started
              = mkCollector None (rev (seq (next_timer st) (n - 1)))
                  (next_timer started) (polls started) (snapshots started)).
  { unfold stop. rewrite T, A. f_equal.
    destruct n as [|n]; [lia|].
    replace (S n - 1) with n by lia.
    rewrite seq_S, rev_app_distr. simpl.
    replace (next_timer st + S n - 1) with (next_timer st + n) by lia.
    rewrite Nat.eqb_refl. simpl. apply clear_misses.
    intros x Hx. apply in_rev, in_seq in Hx. lia. }
  repeat split.
  - exact P.
  - rewrite A, length_rev, length_seq. reflexivity.
  - rewrite S. simpl. rewrite length_rev, length_seq. reflexivity.
  - rewrite S. reflexivity.
  - destruct (repeated_polls (armed (stop started)) (stop started))
      as (_ & _ & _ & Hp & _).
    unfold DockerStats.interval_elapses. rewrite Hp, S. simpl.
    rewrite length_rev, length_seq. reflexivity.
Qed.

End SamplerFacts.

Section SamplerScenarios.

Import DockerStats Sampler Scenarios.
Open Scope string_scope.
Open Scope list_scope.

Local Abbreviation start := (start "run-1" monitored answering stamp).
Local Abbreviation interval_elapses := (interval_elapses "run-1" monitored answering stamp).

(** Witness for X18. *)
Lemma one_timer_at_a_time_witness :
  tidy (stop (start idle)) /\ armed (stop (start idle)) = []
  /\ tidy (interval_elapses (start idle))
  /\ polls (interval_elapses (start idle)) = 2%nat.
Proof.
  assert (T0 : tidy idle) by reflexivity.
  destruct (one_timer_at_a_time "run-1" monitored answering stamp idle T0)
    as (_ & _ & _ & Hstart & _).
  specialize (Hstart eq_refl).
  destruct (one_timer_at_a_time "run-1" monitored answering stamp (start idle) Hstart)
    as (H1 & H2 & H3 & _ & H5).
  repeat split; auto.
Defined.

(** Witness for X19. *)
Lemma repeated_start_leaves_timers_witness :
  let started := Nat.iter 3 start idle in
  polls started = 3%nat
  /\ List.length (armed started) = 3%nat
  /\ List.length (armed (stop started)) = 2%nat
  /\ timer (stop started) = None
  /\ polls (interval_elapses (stop started)) = (polls (stop started) + 2)%nat.
Proof.
  apply (repeated_start_leaves_timers "run-1" monitored answering stamp 3 idle).
  - reflexivity.
  - repeat constructor.
Defined.

End SamplerScenarios.

(** ** Random geometry, dispatch and the suite cases *)

Section RandomGeometryFacts.

Import Suites.
Open Scope Q_scope.

(** X20. With every draw in [0, 1), the random box is a square with a side
    between 0.01 and 0.05 degrees whose lower left corner lies in
    [4.8, 4.95) x [52.3, 52.38); so it has positive area and stays inside
    [4.8, 5.0) x [52.3, 52.43). *)
Theorem random_box_is_well_formed (d1 d2 d3 : Q) :
  0 <= d1 < 1 -> 0 <= d2 < 1 -> 0 <= d3 < 1 ->
  let b := randomAmsterdamBbox d1 d2 d3 in
  4.8 <= minLon b /\ minLon b < 4.95
  /\ 52.3 <= minLat b /\ minLat b < 52.38
  /\ 0.01 <= maxLon b - minLon b /\ maxLon b - minLon b < 0.05
  /\ maxLat b - minLat b == maxLon b - minLon b
  /\ minLon b < maxLon b /\ maxLon b < 5.0
  /\ minLat b < maxLat b /\ maxLat b < 52.43
  /\ randomBbox d1 d2 d3 = b.
Proof.
  intros [A0 A1] [B0 B1] [C0 C1] b. unfold b, randomAmsterdamBbox. simpl.
  repeat split; try lra; reflexivity.
Qed.

(** Witness for X20. *)
Lemma random_box_is_well_formed_witness :
  let b := randomAmsterdamBbox 0 (1 # 2) (9 # 10) in
  4.8 <= minLon b /\ minLon b < 4.95
  /\ 52.3 <= minLat b /\ minLat b < 52.38
  /\ 0.01 <= maxLon b - minLon b /\ maxLon b - minLon b < 0.05
  /\ maxLat b - minLat b == maxLon b - minLon b
  /\ minLon b < maxLon b /\ maxLon b < 5.0
  /\ minLat b < maxLat b /\ maxLat b < 52.43
  /\ randomBbox 0 (1 # 2) (9 # 10) = b.
Proof.
  apply (random_box_is_well_formed 0 (1 # 2) (9 # 10));
    split; vm_compute; (discriminate || reflexivity).
Defined.

(** X21. With both draws in [0, 1), the random point lies in the bounding box
    of the Netherlands, [3.37, 7.21) x [50.75, 53.47). *)
Theorem random_point_in_the_netherlands (d1 d2 : Q) :
  0 <= d1 < 1 -> 0 <= d2 < 1 ->
  let p := randomPoint d1 d2 in
  3.37 <= lon p /\ lon p < 7.21 /\ 50.75 <= lat p /\ lat p < 53.47.
Proof.
  intros [A0 A1] [B0 B1] p. unfold p, randomPoint. simpl.
  repeat split; lra.
Qed.

(** Witness for X21. *)
Lemma random_point_in_the_netherlands_witness :
  let p := randomPoint (1 # 2) (9 # 10) in
  3.37 <= lon p /\ lon p < 7.21 /\ 50.75 <= lat p /\ lat p < 53.47.
Proof.
  apply (random_point_in_the_netherlands (1 # 2) (9 # 10));
    split; vm_compute; (discriminate || reflexivity).
Defined.

End RandomGeometryFacts.

Section DispatchFacts.

Import QueryRunner Workload Dispatch.
Open Scope list_scope.
Open Scope nat_scope.

Lemma start_queued_split (slots : nat) : forall q a,
  start_queued slots q a = (skipn slots q, a ++ firstn slots q).
Proof.
  induction slots as [|k IH]; intros q a.
  - simpl. now rewrite app_nil_r.
  - destruct q as [|t rest].
    + simpl. now rewrite app_nil_r.
    + cbn [start_queued skipn firstn]. rewrite IH, <- app_assoc. reflexivity.
Qed.

Lemma take_at_shortens {A} (l : list A) : forall k x rest,
  take_at k l = Some (x, rest) -> List.length l = S (List.length rest).
Proof.
  induction l as [|y l IH]; intros k x rest H.
  { destruct k; discriminate. }
  destruct k as [|k]; simpl in H.
  - injection H as _ <-. reflexivity.
  - destruct (take_at k l) as [[z rest']|] eqn:E; [|discriminate].
    injection H as _ <-. simpl. f_equal. eapply IH; eauto.
Qed.

Lemma within_limit_after_admission (concurrency : nat) (tasks : list outcome)
    (st : dispatch) :
  (exists n, queue st = skipn n tasks) ->
  List.length (active st) <= concurrency ->
  within_limit concurrency tasks st.
Proof.
  intros Hq Ha. unfold within_limit. repeat split; auto.
  rewrite start_queued_split. rewrite length_app, length_firstn. split; [lia|].
  intros Hne.
  assert (concurrency - List.length (active st) < List.length (queue st)).
  { destruct (Nat.lt_ge_cases (concurrency - List.length (active st))
                (List.length (queue st))) as [L|G]; [exact L|].
    exfalso. apply Hne. now apply skipn_all2. }
  lia.
Qed.

Lemma turn_keeps_limit (concurrency choice : nat) (tasks : list outcome)
    (st : dispatch) :
  (exists n, queue st = skipn n tasks) ->
  List.length (active st) <= concurrency ->
  (exists n, queue (turn concurrency choice st) = skipn n tasks)
  /\ List.length (active (turn concurrency choice st)) <= concurrency.
Proof.
  intros [n Hq] Ha. unfold turn. rewrite start_queued_split.
  set (slots := concurrency - List.length (active st)).
  assert (La : List.length (active st ++ firstn slots (queue st)) <= concurrency).
  { rewrite length_app, length_firstn. unfold slots. lia. }
  assert (Q : skipn slots (queue st) = skipn (n + slots) tasks).
  { rewrite Hq, skipn_skipn. f_equal. lia. }
  destruct (take_at _ _) as [[o a']|] eqn:E; simpl.
  - split; [eauto|]. apply take_at_shortens in E. lia.
  - split; [eauto|]. exact La.
Qed.


(** X23. Raising the write ratio only turns reads into writes: a slot that is
    a write at ratio [a] is a write at every ratio [b >= a], for the same
    draws. *)
Theorem writes_grow_with_ratio (random : nat -> Q) (totalOps : nat) (a b : Q) :
  (a <= b)%Q ->
  forall i, nth_error (draw_operations random totalOps a) i = Some write ->
            nth_error (draw_operations random totalOps b) i = Some write.
Proof.
  intros Hab i. unfold draw_operations, indices.
  rewrite !nth_error_map.
  destruct (nth_error (seq 0 totalOps) i) as [k|]; simpl; [|discriminate].
  unfold choose_operation, lt_num.
  destruct (Qle_bool a (random k)) eqn:Ea; simpl; [discriminate|].
  intros _.
  destruct (Qle_bool b (random k)) eqn:Eb; simpl; [|reflexivity].
  apply Qle_bool_iff in Eb.
  assert (Ha : Qle_bool a (random k) = true)
    by (apply Qle_bool_iff; eapply Qle_trans; eauto).
  congruence.
Qed.

End DispatchFacts.

Section DispatchScenarios.

Import QueryRunner Workload Scenarios.
Open Scope list_scope.

(** Witness for X23. *)
Lemma writes_grow_with_ratio_witness :
  nth_error (draw_operations alternating 4 (1 # 2)) 2 = Some write
  /\ nth_error (draw_operations alternating 4 (95 # 100)) 2 = Some write.
Proof.
  assert (W : nth_error (draw_operations alternating 4 (1 # 2)) 2 = Some write)
    by reflexivity.
  split; [exact W|].
  apply (writes_grow_with_ratio alternating 4 (1 # 2) (95 # 100)).
  - vm_compute. discriminate.
  - exact W.
Defined.

End DispatchScenarios.

Section SuiteCaseFacts.

Import QueryRunner Workload Suites.
Open Scope list_scope.
Open Scope nat_scope.

Variable performance_now : nat -> Q.
Variable date_iso : nat -> string.
Variable env : surroundings.
Variable ctx : QueryRunner.BenchmarkContext.
Variable opts : QueryRunnerOptions.

Lemma timed_record_locals (benchCase : BenchmarkCase)
    (w : world) (results : list BenchmarkResult) (w' : world) (j : nat)
    (r : BenchmarkResult) :
  runBenchmarkCase performance_now date_iso benchCase ctx opts w = (inl results, w') ->
  nth_error results j = Some r ->
  locals_after (fn benchCase ctx (fn_calls w + warmupIterations opts + j))
  = inl (rowsReturned r, queryPlan r, error r).
Proof.
  intros H Hj.
  destruct (run_returns _ _ _ _ _ w results w' H) as (_ & _ & _ & Hnth).
  destruct (Hnth j r Hj) as (l & v & El & ->).
  now rewrite El, pushed_record_locals.
Qed.

Lemma returned_reflects (driver : Z + thrown) (tasks : list outcome)
    (r : BenchmarkResult) :
  sum_or_rejection driver tasks ->
  locals_after (returned driver) = inl (rowsReturned r, queryPlan r, error r) ->
  reflects tasks r.
Proof.
  intros [Hok Hbad] E. split.
  - intros H. rewrite (Hok H) in E. unfold locals_after in E. simpl in E.
    injection E as E1 _ E3. auto.
  - intros H. destruct (Hbad H) as (e & -> & Hin).
    unfold locals_after in E. simpl in E.
    destruct (error_text e) as [text|e'] eqn:Et; [|discriminate].
    injection E as E1 _ E3. exists e, text. auto.
Qed.

(** X24. A concurrent or mixed case inside the case executor.  The record of a
    timed iteration holds the summed rows of the queries the iteration
    dispatched when all of them succeed.  When one of them fails, the
    whole iteration is recorded as failed: the record has no rows, not
    even those of the queries that succeeded, and the error text of a
    failing query. *)
Theorem one_failed_query_fails_the_iteration :
  (forall label totalQueries concurrency w results w' j r,
      1 <= concurrency ->
      runBenchmarkCase performance_now date_iso
        (mkCase label (concurrent_fn env totalQueries concurrency)) ctx opts w
        = (inl results, w') ->
      nth_error results j = Some r ->
      reflects (concurrent_tasks env totalQueries ctx
                  (fn_calls w + warmupIterations opts + j)) r)
  /\ (forall label totalOps writeRatio w results w' j r,
        runBenchmarkCase performance_now date_iso
          (mkCase label (mixed_fn env totalOps writeRatio)) ctx opts w
          = (inl results, w') ->
        nth_error results j = Some r ->
        reflects (Suites.mixed_tasks env totalOps writeRatio ctx
                    (fn_calls w + warmupIterations opts + j)) r).
Proof.
  split.
  - intros label totalQueries concurrency w results w' j r Hc H Hj.
    pose proof (timed_record_locals _ w results w' j r H Hj) as E.
    cbn [fn] in E. unfold concurrent_fn, concurrent_tasks in *.
    destruct (ctx_database ctx);
      eapply returned_reflects; try exact E;
      unfold runConcurrentPostgis, runConcurrentMssql;
      now apply limited_sum_outcome.
  - intros label totalOps writeRatio w results w' j r H Hj.
    pose proof (timed_record_locals _ w results w' j r H Hj) as E.
    cbn [fn] in E. unfold mixed_fn in E.
    eapply returned_reflects; try exact E.
    unfold mixedWorkload, Suites.mixed_tasks.
    apply limited_sum_outcome. unfold CONCURRENCY. lia.
Qed.

End SuiteCaseFacts.

Section SuiteCaseScenarios.

Import QueryRunner Workload Suites Scenarios.
Open Scope list_scope.

(** Witness for X24. Pools whose second query is terminated in every call. *)
Lemma one_failed_query_fails_the_iteration_witness :
  let env := mkSurroundings (fun _ => flaky_pool) (fun _ => flaky_pool)
               (fun _ => []) (fun _ => alternating) in
  let outcome := runBenchmarkCase clock stamp
                   (mkCase "concurrent-intersects-c5" (concurrent_fn env 3 2))
                   amsterdam (options 2 1) fresh in
  let results := match fst outcome with inl rs => rs | inr _ => [] end in
  exists r, nth_error results 1 = Some r /\
    exists e text, In (Fails e) (concurrent_tasks env 3 amsterdam (0 + 1 + 1))
                   /\ error_text e = inl text
                   /\ error r = Some text /\ rowsReturned r = 0%Z.
Proof.
  intros env outcome results.
  assert (Hr : exists r, nth_error results 1 = Some r)
    by (vm_compute; eexists; reflexivity).
  destruct Hr as [r Hr]. exists r. split; [exact Hr|].
  apply (proj1 (one_failed_query_fails_the_iteration clock stamp env amsterdam
                  (options 2 1))
           "concurrent-intersects-c5"%string 3%nat 2%nat fresh results (snd outcome)
           1%nat r).
  - repeat constructor.
  - vm_compute. reflexivity.
  - exact Hr.
  - reflexivity.
Defined.

End SuiteCaseScenarios.

(** ** Discovery and the run *)

Section DiscoveryFacts.

Import QueryRunner Runner.
Open Scope string_scope.
Open Scope list_scope.

Lemma load_suites_finds (filter : list string) (files : list (string * imported)) :
  forall found suites,
    load_suites filter files found = inl suites ->
    exists more,
      suites = found ++ more
      /\ forall s, In s more ->
           suite_name s <> ""
           /\ (filter <> [] -> In (suite_name s) filter)
           /\ exists file, In (file, Module_exports (Some s)) files.
Proof.
  induction files as [|[file m] files IH]; intros found suites H; simpl in H.
  - injection H as <-. exists []. rewrite app_nil_r. split; auto. intros s [].
  - destruct m as [err|[s|]]; [discriminate| |].
    + simpl in H. destruct (suite_name s =? "") eqn:En.
      * destruct (IH _ _ H) as (more & E & P). exists more. split; auto.
        intros x Hx. destruct (P x Hx) as (P1 & P2 & f & P3).
        repeat split; auto. exists f. now right.
      * destruct ((0 <? List.length filter)%nat
                  && negb (existsb (String.eqb (suite_name s)) filter)) eqn:Ef.
        -- destruct (IH _ _ H) as (more & E & P). exists more. split; auto.
           intros x Hx. destruct (P x Hx) as (P1 & P2 & f & P3).
           repeat split; auto. exists f. now right.
        -- destruct (IH _ _ H) as (more & E & P). exists (s :: more).
           rewrite E, <- app_assoc. split; auto.
           intros x [<-|Hx].
           ++ repeat split.
              ** now apply String.eqb_neq.
              ** intros Hne. apply andb_false_iff in Ef as [Ef|Ef].
                 --- destruct filter; [congruence | discriminate].
                 --- apply negb_false_iff, existsb_exists in Ef as (y & Hy & E').
                     apply String.eqb_eq in E'. now subst.
              ** exists file. now left.
           ++ destruct (P x Hx) as (P1 & P2 & f & P3).
              repeat split; auto. exists f. now right.
    + destruct (IH _ _ H) as (more & E & P). exists more. split; auto.
      intros x Hx. destruct (P x Hx) as (P1 & P2 & f & P3).
      repeat split; auto. exists f. now right.
Qed.


End DiscoveryFacts.

Section MainFacts.

Import QueryRunner ResultsDb DockerStats Sampler Runner.
Open Scope string_scope.
Open Scope list_scope.

Variable performance_now : nat -> Q.
Variable date_iso : nat -> string.
Variable probe : string -> nat -> option reading.
Variable intervals : nat -> nat.
Variable resource_snapshots : list ResourceSnapshot.
Variable getMssqlPool : nat -> option thrown.
Variable config : RunnerConfig.
Variable runId : string.

Local Abbreviation run_case :=
  (run_case performance_now date_iso probe intervals config runId).
Local Abbreviation run_combination :=
  (run_combination performance_now date_iso probe intervals getMssqlPool config runId).
Local Abbreviation run_suites :=
  (run_suites performance_now date_iso probe intervals getMssqlPool config runId).
Local Abbreviation cleanup := (cleanup date_iso runId).
Local Abbreviation main :=
  (main performance_now date_iso probe intervals resource_snapshots getMssqlPool
     config runId).

Lemma keeps_unit {A} (records : list run_row) (a : A) : keeps records (unit_ a).
Proof. intros p o p' H. injection H as _ <-. auto. Qed.

Lemma keeps_throw {A} (records : list run_row) (e : thrown) :
  keeps records (@throw A e).
Proof. intros p o p' H. injection H as _ <-. auto. Qed.

Lemma keeps_and_then {A B} (records : list run_row) (m : Run A) (f : A -> Run B) :
  keeps records m -> (forall a, keeps records (f a)) ->
  keeps records (and_then m f).
Proof.
  intros Hm Hf p o p' H S. unfold and_then in H.
  destruct (m p) as [[a|e] p1] eqn:E.
  - eapply Hf; eauto.
  - injection H as _ <-. eauto.
Qed.

Lemma keeps_for_each {A} (records : list run_row) (l : list A) (body : A -> Run unit) :
  (forall x, keeps records (body x)) -> keeps records (for_each l body).
Proof.
  intros Hb. induction l as [|x l IH]; simpl.
  - apply keeps_unit.
  - apply keeps_and_then; auto.
Qed.

Lemma keeps_hook (records : list run_row)
    (hook : option (BenchmarkContext -> option thrown)) (ctx : BenchmarkContext) :
  keeps records (run_hook hook ctx).
Proof.
  unfold run_hook. destruct hook as [h|]; [|apply keeps_unit].
  destruct (h ctx); [apply keeps_throw | apply keeps_unit].
Qed.

Lemma tidy_after_intervals (n : nat) (c : collector) :
  tidy c -> tidy (sample date_iso probe config runId n c).
Proof.
  intros T. unfold sample. induction n as [|n IH]; simpl; [exact T|].
  destruct (repeated_polls runId (dockerContainers config) probe date_iso
              (armed (Nat.iter n (interval_elapses runId (dockerContainers config)
                                    probe date_iso) c))
              (Nat.iter n (interval_elapses runId (dockerContainers config)
                             probe date_iso) c)) as (Ht & Ha & _).
  unfold tidy, interval_elapses in *. now rewrite Ht, Ha.
Qed.

Lemma keeps_case (records : list run_row) (suite : BenchmarkSuite)
    (database : DatabaseTarget) (scale : Z) (ctx : BenchmarkContext)
    (benchCase : BenchmarkCase) :
  keeps records (run_case suite database scale ctx benchCase).
Proof.
  intros p o p' H [Sr Sc]. unfold Runner.run_case in H.
  destruct (runBenchmarkCase _ _ _ _ _ _) as [[results|e] w].
  - injection H as _ <-. split; simpl.
    + destruct (insertResults_rows results (store p)) as (_ & _ & _ & R & _).
      congruence.
    + destruct (statsCollector p) as [c|]; simpl; auto.
      now apply tidy_after_intervals.
  - injection H as _ <-. split; auto.
Qed.

Lemma keeps_combination (records : list run_row) (suite : BenchmarkSuite)
    (database : DatabaseTarget) (scale : Z) :
  keeps records (run_combination suite database scale).
Proof.
  unfold Runner.run_combination. apply keeps_and_then.
  - intros p o p' H S. unfold build_context in H.
    destruct database; [injection H as _ <-; auto|].
    destruct (getMssqlPool (connections p)); injection H as _ <-; exact S.
  - intros ctx. apply keeps_and_then; [apply keeps_hook|]. intros _.
    apply keeps_and_then; [|intros _; apply keeps_hook].
    apply keeps_for_each. intros c. apply keeps_case.
Qed.

Lemma keeps_suites (records : list run_row) (found : list BenchmarkSuite) :
  keeps records (run_suites found).
Proof.
  unfold Runner.run_suites. apply keeps_for_each. intros suite.
  apply keeps_for_each. intros database.
  destruct (supports suite database); [|apply keeps_unit].
  apply keeps_for_each. intros scale. apply keeps_combination.
Qed.

Lemma finish_run_finishes (p : process) :
  In runId (map runs_run_id (runs (store p))) ->
  exists p',
    finish_run date_iso runId p = (inl tt, p')
    /\ finished runId (store p')
    /\ statsCollector p' = statsCollector p.
Proof.
  intros Hin. eexists. split; [reflexivity|]. split; [|reflexivity].
  unfold finished. cbn [store runs]. split.
  - rewrite map_map.
    apply in_map_iff in Hin as (r & E & Hr). apply in_map_iff. exists r.
    split; auto. unfold update_finished_at. now destruct (runs_run_id r =? runId).
  - intros r Hr E. apply in_map_iff in Hr as (r0 & <- & _).
    unfold update_finished_at in *.
    destruct (runs_run_id r0 =? runId) eqn:E0; [discriminate|].
    apply String.eqb_neq in E0. contradiction.
Qed.

Lemma cleanup_closes (records : list run_row) (p : process) :
  steady records p -> In runId (map runs_run_id records) ->
  exists p',
    cleanup p = (inl tt, p')
    /\ finished runId (store p') /\ sampler_stopped (statsCollector p').
Proof.
  intros [Sr Sc] Hin. unfold Runner.cleanup, and_then, stop_collector.
  destruct (finish_run_finishes
              (mkProcess (store p) (option_map stop (statsCollector p))
                 (counters p) (connections p) (console p)))
    as (p' & E & F & C).
  { simpl. now rewrite Sr. }
  exists p'. rewrite E. repeat split; try apply F.
  rewrite C. simpl. destruct (statsCollector p) as [c|]; simpl; auto.
  unfold tidy in Sc. unfold stop.
  destruct (timer c) as [id|] eqn:Et; simpl.
  - rewrite Sc. simpl. now rewrite Nat.eqb_refl.
  - rewrite Et. auto.
Qed.

Lemma started_run_closes (found : list BenchmarkSuite) (p1 : process) :
  statsCollector p1 = None ->
  In runId (map runs_run_id (runs (store p1))) ->
  let '(outcome, p') :=
    and_then (start_collector date_iso probe resource_snapshots config runId)
      (fun _ => try_finally (run_suites found) cleanup) p1 in
  finished runId (store p') /\ sampler_stopped (statsCollector p').
Proof.
  intros Hnull Hin. unfold and_then, start_collector, try_finally.
  destruct (collectDockerStats config).
  - destruct (run_suites found _) as [outcome p3] eqn:E3.
    assert (S3 : steady (runs (store p1)) p3).
    { eapply keeps_suites; [exact E3|]. split; reflexivity. }
    destruct (cleanup_closes _ p3 S3 Hin) as (p' & -> & F & C). auto.
  - destruct (run_suites found p1) as [outcome p3] eqn:E3.
    assert (S3 : steady (runs (store p1)) p3).
    { eapply keeps_suites; [exact E3|]. split; [reflexivity|]. now rewrite Hnull. }
    destruct (cleanup_closes _ p3 S3 Hin) as (p' & -> & F & C). auto.
Qed.

Lemma main_closes
    (configJson : string) (directory : option (list (string * imported)))
    (found : list BenchmarkSuite) (p : process) :
  ~ In runId (map runs_run_id (runs (store p))) ->
  statsCollector p = None ->
  discoverSuites directory (suites config) = inl found ->
  let '(outcome, p') := main configJson directory p in
  finished runId (store p') /\ sampler_stopped (statsCollector p').
Proof.
  intros Hnew Hnull Hfound.
  unfold Runner.main, and_then at 1, insert_run, and_then, now.
  cbn [store statsCollector counters connections console].
  unfold insertRun.
  destruct (existsb (fun r => runs_run_id r =? runId) (runs (store p))) eqn:E.
  { exfalso. apply Hnew. apply existsb_exists in E as (r & Hr & Er).
    apply String.eqb_eq in Er. apply in_map_iff. eauto. }
  rewrite Hfound.
  set (p1 := mkProcess _ _ _ _ _).
  assert (Hin : In runId (map runs_run_id (runs (store p1)))).
  { unfold p1. simpl. rewrite map_app. apply in_or_app. right. now left. }
  assert (Hnull1 : statsCollector p1 = None) by exact Hnull.
  destruct found as [|s found].
  - destruct (finish_run_finishes p1 Hin) as (p' & -> & F & C).
    split; [exact F|]. now rewrite C, Hnull1.
  - apply (started_run_closes (s :: found) p1 Hnull1 Hin).
Qed.

(** X26. The run is always closed.  Once the run record is written and the
    suites are discovered, [main] ends, whether it returns or rejects
    because a setup hook, a teardown hook, the SQL Server connection or
    the execution of a case failed, with the run record carrying a finish
    time and with no sampling timer armed. *)
Theorem main_always_closes_the_run
    (configJson : string) (directory : option (list (string * imported)))
    (found : list BenchmarkSuite) (p : process) :
  ~ In runId (map runs_run_id (runs (store p))) ->
  statsCollector p = None ->
  discoverSuites directory (suites config) = inl found ->
  forall outcome p',
    main configJson directory p = (outcome, p') ->
    finished runId (store p') /\ sampler_stopped (statsCollector p').
Proof.
  intros Hnew Hnull Hfound outcome p' E.
  pose proof (main_closes configJson directory found p Hnew Hnull Hfound) as C.
  rewrite E in C. exact C.
Qed.

(** X27. When importing a suite file fails, [main] rejects before its [try]:
    the run record stays without a finish time, no measurement is stored
    and the collector is never created. *)
Theorem failed_discovery_leaves_the_run_open
    (configJson : string) (directory : option (list (string * imported)))
    (e : thrown) (p : process) :
  ~ In runId (map runs_run_id (runs (store p))) ->
  discoverSuites directory (suites config) = inr e ->
  exists p',
    main configJson directory p = (inr e, p')
    /\ runs (store p')
       = runs (store p)
         ++ [mkRunRow runId (date_iso (date_reads (counters p))) None (Some configJson)]
    /\ benchmark_results (store p') = benchmark_results (store p)
    /\ statsCollector p' = statsCollector p.
Proof.
  intros Hnew Hfail.
  unfold Runner.main, and_then at 1, insert_run, and_then, now.
  cbn [store statsCollector counters connections console].
  unfold insertRun.
  destruct (existsb (fun r => runs_run_id r =? runId) (runs (store p))) eqn:E.
  { exfalso. apply Hnew. apply existsb_exists in E as (r & Hr & Er).
    apply String.eqb_eq in Er. apply in_map_iff. eauto. }
  rewrite Hfail. eexists. split; [reflexivity|]. repeat split.
Qed.

Local Abbreviation executes := (executes config runId).

Lemma executes_unit {A} (a : A) : executes [] (unit_ a).
Proof.
  intros p. exists a, p, [], []. simpl. rewrite !app_nil_r.
  repeat split; constructor.
Qed.

Lemma executes_and_then {A B} (done more : list planned_case)
    (m : Run A) (f : A -> Run B) :
  executes done m -> (forall a, executes more (f a)) ->
  executes (done ++ more) (and_then m f).
Proof.
  intros Hm Hf p. destruct (Hm p) as (a & p1 & b1 & r1 & E1 & F1 & R1 & S1 & C1).
  destruct (Hf a p1) as (b & p2 & b2 & r2 & E2 & F2 & R2 & S2 & C2).
  exists b, p2, (b1 ++ b2), (r1 ++ r2). unfold and_then. rewrite E1, E2.
  repeat split.
  - now apply Forall2_app.
  - now rewrite R2, R1, app_assoc.
  - rewrite concat_app. now apply Forall2_app.
  - now rewrite C2, C1, map_app, app_assoc.
Qed.

Lemma executes_for_each {A} (f : A -> list planned_case) (l : list A)
    (body : A -> Run unit) :
  (forall x, In x l -> executes (f x) (body x)) ->
  executes (flat_map f l) (for_each l body).
Proof.
  induction l as [|x l IH]; intros H; simpl.
  - apply executes_unit.
  - apply executes_and_then; [apply H; now left|].
    intros _. apply IH. intros y Hy. apply H. now right.
Qed.

Lemma executes_hook (hook : option (BenchmarkContext -> option thrown))
    (ctx : BenchmarkContext) :
  (forall h c, hook = Some h -> h c = None) -> executes [] (run_hook hook ctx).
Proof.
  intros H. unfold run_hook. destruct hook as [h|]; [|apply executes_unit].
  rewrite (H h ctx eq_refl). apply executes_unit.
Qed.

Lemma executes_case (s : BenchmarkSuite) (db : DatabaseTarget) (sc : Z)
    (ctx : BenchmarkContext) (c : BenchmarkCase) :
  (forall k, escapes (fn c ctx k) = None) ->
  executes [(s, db, sc, c)] (run_case s db sc ctx c).
Proof.
  intros H p. unfold Runner.run_case.
  set (opts := mkOptions runId (suite_name s) db sc
                 (cfg_iterations config) (cfg_warmupIterations config)).
  destruct (run_completes performance_now date_iso c ctx opts (counters p))
    as (results & w' & E); [intros j _; apply H|].
  rewrite E.
  destruct (insertResults_rows results (store p)) as (rows & Er & Fr & _).
  destruct (run_returns _ _ _ _ _ _ _ _ E) as (_ & Hit & _ & _).
  eexists tt, _, [results], rows. split; [reflexivity|].
  cbn [store console List.concat map]. rewrite app_nil_r. repeat split; auto.
  constructor; [|constructor]. split; [exact Hit|].
  intros r Hin.
  destruct (run_results_are_pushed _ _ _ _ _ _ _ _ E r Hin) as (i & v & l & ->).
  apply (pushed_record_tags performance_now date_iso c opts i v l).
Qed.

Lemma flat_map_singleton {A B} (f : A -> B) (l : list A) :
  flat_map (fun x => [f x]) l = map f l.
Proof. induction l as [|x l IH]; simpl; [reflexivity|]. now rewrite IH. Qed.

(** No call of the case throws out of the [catch] of a timed iteration. *)
Local Abbreviation texts_can_be_had s :=
  (forall c ctx k, In c (cases s) -> escapes (fn c ctx k) = None).

Lemma executes_combination (s : BenchmarkSuite) (db : DatabaseTarget) (sc : Z) :
  hooks_resolve s -> (forall k, getMssqlPool k = None) -> texts_can_be_had s ->
  executes (map (fun c => (s, db, sc, c)) (cases s)) (run_combination s db sc).
Proof.
  intros [Hs Ht] Hpool Htext. unfold Runner.run_combination.
  rewrite <- flat_map_singleton.
  rewrite <- (app_nil_r (flat_map _ _)).
  change (flat_map (fun c => [(s, db, sc, c)]) (cases s) ++ [])
    with ([] ++ ([] ++ (flat_map (fun c => [(s, db, sc, c)]) (cases s) ++ []))).
  apply executes_and_then.
  - intros p. unfold build_context. destruct db.
    + exists (mkContext postgis sc), p, [], []. simpl. rewrite !app_nil_r.
      repeat split; constructor.
    + rewrite Hpool. eexists _, _, [], []. split; [reflexivity|]. simpl.
      rewrite !app_nil_r. repeat split; constructor.
  - intros ctx. apply executes_and_then; [now apply executes_hook|]. intros _.
    apply executes_and_then; [|intros _; now apply executes_hook].
    apply executes_for_each. intros c Hc. apply executes_case.
    intros k. now apply Htext.
Qed.

Lemma executes_suites (found : list BenchmarkSuite) :
  (forall s, In s found -> hooks_resolve s) -> (forall k, getMssqlPool k = None) ->
  (forall s, In s found -> texts_can_be_had s) ->
  executes (plan config found) (run_suites found).
Proof.
  intros Hh Hpool Htext. unfold Runner.run_suites, plan.
  apply executes_for_each. intros s Hs.
  apply executes_for_each. intros db _.
  destruct (supports s db); [|apply executes_unit].
  apply executes_for_each. intros sc _.
  apply executes_combination; [now apply Hh | exact Hpool | now apply Htext].
Qed.

Lemma executes_finish_run : executes [] (finish_run date_iso runId).
Proof.
  intros p. eexists tt, _, [], []. split; [reflexivity|]. simpl.
  rewrite !app_nil_r. repeat split; constructor.
Qed.

Lemma executes_cleanup : executes [] cleanup.
Proof.
  unfold Runner.cleanup. change (@nil planned_case) with (@nil planned_case ++ []).
  apply executes_and_then; [|intros _; apply executes_finish_run].
  intros p. eexists tt, _, [], []. split; [reflexivity|]. simpl.
  rewrite !app_nil_r. repeat split; constructor.
Qed.

Lemma executes_try_finally (done : list planned_case) (body : Run unit) :
  executes done body -> executes done (try_finally body cleanup).
Proof.
  intros Hb p. destruct (Hb p) as (a & p1 & b1 & r1 & E1 & F1 & R1 & S1 & C1).
  destruct (executes_cleanup p1) as (b & p2 & b2 & r2 & E2 & F2 & R2 & S2 & C2).
  inversion F2; subst b2. simpl in S2. inversion S2; subst r2.
  exists a, p2, b1, r1. unfold try_finally. rewrite E1, E2.
  simpl in C2. rewrite app_nil_r in R2, C2. repeat split; congruence.
Qed.

Lemma executes_main_body (found : list BenchmarkSuite) :
  (forall s, In s found -> hooks_resolve s) -> (forall k, getMssqlPool k = None) ->
  (forall s, In s found -> texts_can_be_had s) ->
  executes (plan config found)
    (match found with
     | [] => finish_run date_iso runId
     | _ :: _ =>
         and_then (start_collector date_iso probe resource_snapshots config runId)
           (fun _ => try_finally (run_suites found) cleanup)
     end).
Proof.
  intros Hh Hpool Htext. destruct found as [|s found].
  - apply executes_finish_run.
  - change (plan config (s :: found)) with ([] ++ plan config (s :: found)).
    apply executes_and_then.
    + intros p. unfold start_collector.
      destruct (collectDockerStats config); eexists tt, _, [], [];
        (split; [reflexivity|]); simpl; rewrite !app_nil_r;
        repeat split; constructor.
    + intros _. apply executes_try_finally. now apply executes_suites.
Qed.

Lemma blocks_of_iterations (done : list planned_case)
    (blocks : list (list BenchmarkResult)) :
  Forall2 (records_of_case config runId) done blocks ->
  List.length (List.concat blocks) = (List.length done * cfg_iterations config)%nat.
Proof.
  induction 1 as [|[[[s db] sc] c] block done blocks [Hit _] _ IH]; [reflexivity|].
  simpl. rewrite length_app, IH.
  rewrite <- (length_map QueryRunner.iteration block), Hit, length_seq. reflexivity.
Qed.


End MainFacts.

Section MainScenarios.

Import QueryRunner ResultsDb DockerStats Runner Scenarios RunScenarios.
Open Scope string_scope.
Open Scope list_scope.

Local Abbreviation main_of :=
  (main clock stamp answering one_interval [] connects).


(** Witness for X26. *)
Lemma main_always_closes_the_run_witness :
  let ended := main_of (small_config ["mixed-workload"]) "run-9" "{}"
                 suites_directory blank in
  fst ended = inr terminated
  /\ finished "run-9" (store (snd ended))
  /\ sampler_stopped (statsCollector (snd ended)).
Proof.
  intros ended. split; [vm_compute; reflexivity|].
  apply (main_always_closes_the_run clock stamp answering one_interval [] connects
           (small_config ["mixed-workload"]) "run-9" "{}" suites_directory
           [leaky_suite] blank) with (outcome := fst ended).
  - intros [].
  - reflexivity.
  - reflexivity.
  - apply surjective_pairing.
Defined.

(** Witness for X27. *)
Lemma failed_discovery_leaves_the_run_open_witness :
  exists p',
    main_of (small_config []) "run-9" "{}"
      (Some [("bbox.ts", ImportFails terminated)]) blank = (inr terminated, p')
    /\ runs (store p') = [] ++ [mkRunRow "run-9" (stamp 0) None (Some "{}")]
    /\ benchmark_results (store p') = []
    /\ statsCollector p' = None.
Proof.
  apply (failed_discovery_leaves_the_run_open clock stamp answering one_interval []
           connects (small_config []) "run-9" "{}"
           (Some [("bbox.ts", ImportFails terminated)]) terminated blank).
  - intros [].
  - reflexivity.
Defined.


(** A case that throws a value without a text ends the run: [main]
    rejects with the [TypeError] of the [catch] clause, the two records of
    the case before it stay stored, the case after it is not run, and the
    run is closed all the same. *)
Example bare_object_ends_the_run :
  let ended := main_of (small_config []) "run-9" "{}"
                 (Some [("bbox.ts", Module_exports (Some bare_suite))]) blank in
  fst ended = inr cannot_convert
  /\ map benchmark (benchmark_results (store (snd ended)))
     = ["bbox-amsterdam"; "bbox-amsterdam"]
  /\ List.length (console (snd ended)) = 1%nat
  /\ map finished_at (runs (store (snd ended))) = [Some (stamp 0)]
  /\ sampler_stopped (statsCollector (snd ended)).
Proof. vm_compute. repeat split; reflexivity. Qed.

End MainScenarios.
